(** * vibevoice: the capture-and-dispatch state machine of [src/app/cli.py]

    A shallow embedding of [process_typed], [on_press], [on_release] and the
    audio [callback] of [main], with the calls into the collaborators
    (keyboard controller, rich progress display, requests, wavfile, macro
    actions) recorded as a trace of effects. *)

From Stdlib Require Import List String Ascii Bool Arith NArith ZArith Lia.
Import ListNotations.
Open Scope string_scope.
Open Scope list_scope.

(** ** Python strings

    A [str] is modelled as a [string] whose characters are the code points
    U+0000..U+00FF.  On that range [str.lower] maps character by character and
    [str.isalnum] is the table below (digits, letters, and the Latin-1
    letters, superscript digits and vulgar fractions). *)

Module PyStr.

Definition in_range (lo hi n : N) : bool := (N.leb lo n && N.leb n hi)%bool.

Definition char_isalnum (c : ascii) : bool :=
  let n := N_of_ascii c in
  (in_range 48 57 n || in_range 65 90 n || in_range 97 122 n
   || N.eqb n 170 || in_range 178 179 n || N.eqb n 181
   || in_range 185 186 n || in_range 188 190 n
   || in_range 192 214 n || in_range 216 246 n || in_range 248 255 n)%bool.

Definition char_lower (c : ascii) : ascii :=
  let n := N_of_ascii c in
  if (in_range 65 90 n || in_range 192 214 n || in_range 216 222 n)%bool
  then ascii_of_N (n + 32)
  else c.

Fixpoint lower (s : string) : string :=
  match s with
  | EmptyString => EmptyString
  | String c rest => String (char_lower c) (lower rest)
  end.

(** ["".join(char for char in s if p(char))] *)
Fixpoint join_if (p : ascii -> bool) (s : string) : string :=
  match s with
  | EmptyString => EmptyString
  | String c rest => if p c then String c (join_if p rest) else join_if p rest
  end.

(** Truth value of a [str]: the empty string is falsy. *)
Definition truthy (s : string) : bool :=
  match s with
  | EmptyString => false
  | String _ _ => true
  end.

End PyStr.

(** ** Effects

    Every call that leaves the module is recorded, in program order and with
    its arguments.  The request, the lookup of the text in the reply and a
    macro action may raise; the other calls (progress display, [print],
    [wavfile.write], [keyboard_controller.type]) belong to libraries outside
    the repository and are taken to return.

    Two of those calls can fail in the libraries: a progress call on a task
    that is not open ([stale_task_calls] below lists them along a trace), and
    a [print] of a text with markup that does not parse.  A trace is
    therefore the program's up to the first such call, and a statement that
    looks beyond it says so: it is stated for runs without stale calls, or
    for texts without markup. *)

Definition TaskID := nat.

(** What [print] is given.  Interpolated exception texts are not kept. *)
Inductive message :=
| MsgMatchedFunction (key sluggified : string)
    (* "Matched '{key}' in '{sluggified}' -> Executing function" *)
| MsgMatchedReplace (key sluggified value : string)
    (* "Matched '{key}' in '{sluggified}' -> Replacing with '{value}'" *)
| MsgCarriageReturn
    (* print("\r", end="") *)
| MsgValueError
    (* print(e) for the ValueError of np.concatenate *)
| MsgIgnoringShort
    (* "[yellow]>>> (Ignoring short response.)[/yellow]" *)
| MsgTranscript (processed_transcript : string)
    (* "[yellow bold]>>>[/bold yellow] [white bold]...[/bold white]" *)
| MsgErrorSendingRequest
    (* "[red]Error sending request to local API:[/red] {e}" *)
| MsgErrorProcessingTranscript
    (* "[red]Error processing transcript:[/red] {e}" *)
| MsgStatus.
    (* print(status) in the audio callback *)

Inductive effect :=
| print (m : message)
| call_action (name : string)
| keyboard_type (text : string)
| progress_start
| progress_stop
| progress_add_task (description : string) (returned : TaskID)
| progress_start_task (task : TaskID)
| progress_stop_task (task : option TaskID)
| progress_remove_task (task : option TaskID)
| wavfile_write (path : string) (rate : Z) (data : list Z)
| requests_post (url : string) (file_path : string).

(** ** Exceptions and the effect monad *)

Inductive exn :=
| RequestException
| KeyError
| ActionError (name : string).

Inductive outcome (A : Type) :=
| Returned (a : A)
| Raised (e : exn).
Arguments Returned {A} a.
Arguments Raised {A} e.

(** A computation: the effects it performed, then how it ended. *)
Definition M (A : Type) : Type := (list effect * outcome A)%type.

Definition ret {A} (a : A) : M A := ([], Returned a).
Definition raise {A} (e : exn) : M A := ([], Raised e).
Definition emit (e : effect) : M unit := ([e], Returned tt).

Definition bind {A B} (m : M A) (k : A -> M B) : M B :=
  match m with
  | (es, Returned a) => let '(es', r) := k a in (es ++ es', r)
  | (es, Raised e) => (es, Raised e)
  end.

Notation "x <- m ;; k" := (bind m (fun x => k))
  (at level 61, m at next level, right associativity).
Notation "m ;;; k" := (bind m (fun _ => k))
  (at level 61, right associativity).

Definition effects_of {A} (m : M A) : list effect := fst m.
Definition outcome_of {A} (m : M A) : outcome A := snd m.

(** ** Module globals *)

(** A value of the [MACROS] table: a replacement text, or a zero-argument
    function.  The functions live in [macros.py]; a call is recorded by name,
    and [raises] tells whether that call ends in an exception. *)
Inductive macro_value :=
| Literal (value : string)
| Callable (name : string) (raises : bool).

(** [MACROS.items()]: the entries of the dict in insertion order. *)
Definition macro_table := list (string * macro_value).

Record globals := {
  RAW_MODE : bool;
  MACROS : macro_table
}.

Definition SERVER_HOST : string := "http://localhost:4242".
Definition MIN_SAMPLES_FOR_TRANSCRIBE : Z := 8000.
Definition RAW_MODE_default : bool := false.

(** ** [process_typed] *)

Definition sluggify (text : string) : string :=
  PyStr.join_if PyStr.char_isalnum (PyStr.lower text).

Definition call_value (name : string) (raises : bool) : M unit :=
  emit (call_action name) ;;;
  if raises then raise (ActionError name) else ret tt.

(** The [for key, value in MACROS.items()] loop; the result is the final
    value of the local [text].  A literal match leaves the loop ([break]), a
    callable match does not. *)
Fixpoint macro_loop (sluggified : string) (items : macro_table) (text : string)
  : M string :=
  match items with
  | [] => ret text
  | (key, value) :: rest =>
      if String.eqb sluggified key then
        match value with
        | Callable name raises =>
            emit (print (MsgMatchedFunction key sluggified)) ;;;
            call_value name raises ;;;
            macro_loop sluggified rest ""
        | Literal v =>
            emit (print (MsgMatchedReplace key sluggified v)) ;;;
            ret v
        end
      else macro_loop sluggified rest text
  end.

Definition process_typed (g : globals) (text : string) : M unit :=
  text' <- (if negb (RAW_MODE g)
            then macro_loop (sluggify text) (MACROS g) text
            else ret text) ;;
  if PyStr.truthy text' then emit (keyboard_type text') else ret tt.

(** What reaches the output sink and which actions ran. *)
Definition typed_texts (es : list effect) : list string :=
  flat_map (fun e => match e with keyboard_type t => [t] | _ => [] end) es.

Definition actions_called (es : list effect) : list string :=
  flat_map (fun e => match e with call_action a => [a] | _ => [] end) es.

(** The text handed to the sink, the empty string when nothing is typed. *)
Definition sink_text (es : list effect) : string :=
  String.concat "" (typed_texts es).

(** ** Keys and the transcription backend *)

(** The members of pynput's [Key] that the handlers compare against; every
    other key or key code is [other_key]. *)
Inductive Key :=
| ctrl_r
| shift_r
| other_key (code : nat).

Definition Key_eqb (a b : Key) : bool :=
  match a, b with
  | ctrl_r, ctrl_r => true
  | shift_r, shift_r => true
  | other_key m, other_key n => Nat.eqb m n
  | _, _ => false
  end.

(** [RECORD_KEY = Key[VOICEKEY_DEFAULT]], with [VOICEKEY_DEFAULT = "shift_r"]. *)
Definition RECORD_KEY : Key := shift_r.

(** The body of a response, as [response.json()] gives it: a JSON object
    without or with a "text" string.  A body that is not JSON, for which
    [response.json()] raises, is not among the replies of the model. *)
Inductive json_body :=
| NoTextField
| TextField (text : string).

(** A response object: [error_status] tells whether [raise_for_status()]
    raises for its status code; [body] is what [json()] gives. *)
Record response := {
  error_status : bool;
  body : json_body
}.

(** What the backend does with one request: the connection fails (refused,
    timed out), or a response comes back. *)
Inductive backend_reply :=
| Unreachable
| Reply (r : response).

Definition post (backend : backend_reply) (url file_path : string) : M response :=
  emit (requests_post url file_path) ;;;
  match backend with
  | Unreachable => raise RequestException
  | Reply r => ret r
  end.

(** [HTTPError] is a [RequestException]. *)
Definition raise_for_status (r : response) : M unit :=
  if error_status r then raise RequestException else ret tt.

Definition json_text (r : response) : M string :=
  match body r with
  | NoTextField => raise KeyError
  | TextField text => ret text
  end.

(** [os.path.abspath("recording.wav")]: the file in the working directory,
    named here by the relative name it is built from; the same value is
    written and posted. *)
Definition recording_path : string := "recording.wav".
Definition sample_rate : Z := 16000.

(** The body of the second [try] of [on_release]. *)
Definition transcribe_and_type (g : globals) (backend : backend_reply) : M unit :=
  response <- post backend (SERVER_HOST ++ "/transcribe")%string recording_path ;;
  raise_for_status response ;;;
  transcript <- json_text response ;;
  if PyStr.truthy transcript then
    let processed_transcript := transcript in
    emit (print (MsgTranscript processed_transcript)) ;;;
    process_typed g processed_transcript
  else ret tt.

(** Its two [except] clauses: the effects of the body, then the report. *)
Definition with_handlers (m : M unit) : list effect :=
  match m with
  | (es, Returned _) => es
  | (es, Raised RequestException) => es ++ [print MsgErrorSendingRequest]
  | (es, Raised _) => es ++ [print MsgErrorProcessingTranscript]
  end.

(** ** The closures of [main] *)

Section Capture.

(** One audio sample as the input stream delivers it, and the conversion
    [(x * np.iinfo(np.int16).max).astype(np.int16)] of one sample. *)
Variable sample : Type.
Variable quantize : sample -> Z.

(** [indata]: one block of mono samples. *)
Definition frame := list sample.

(** The [nonlocal] variables, and the task counter of the [Progress] object
    ([add_task] returns it and increments it). *)
Record state := mkState {
  recording : bool;
  audio_data : list frame;
  pressed_ctrl : bool;
  pressed_shift : bool;
  progress_current : option TaskID;
  task_index : TaskID
}.

Definition initial : state := mkState false [] false false None 0.

Definition set_pressed_ctrl (b : bool) (st : state) : state :=
  mkState (recording st) (audio_data st) b (pressed_shift st)
          (progress_current st) (task_index st).

Definition set_pressed_shift (b : bool) (st : state) : state :=
  mkState (recording st) (audio_data st) (pressed_ctrl st) b
          (progress_current st) (task_index st).

Definition set_audio_data (a : list frame) (st : state) : state :=
  mkState (recording st) a (pressed_ctrl st) (pressed_shift st)
          (progress_current st) (task_index st).

Definition recording_task : string := "[green bold]Recording...[/bold green]".
Definition transcribing_task : string := "[yellow bold]Transcribing...[/bold yellow]".

Definition on_press (key : Key) (st : state) : state * list effect :=
  let st := if Key_eqb key ctrl_r then set_pressed_ctrl true st else st in
  let st := if Key_eqb key shift_r then set_pressed_shift true st else st in
  if pressed_ctrl st && pressed_shift st then
    let restart :=
      match progress_current st with
      | Some t => [progress_stop; progress_remove_task (Some t)]
      | None => []
      end in
    let t := task_index st in
    (mkState true [] (pressed_ctrl st) (pressed_shift st) (Some t) (S t),
     restart ++ [progress_start; progress_add_task recording_task t;
                 progress_start_task t])
  else (st, []).

(** [np.concatenate(audio_data, axis=0)]: a [ValueError] on the empty list. *)
Definition np_concatenate (blocks : list frame) : option (list sample) :=
  match blocks with
  | [] => None
  | _ => Some (List.concat blocks)
  end.

Definition on_release (g : globals) (key : Key) (backend : backend_reply)
    (st : state) : state * list effect :=
  let st := if Key_eqb key ctrl_r then set_pressed_ctrl false st else st in
  let st := if Key_eqb key shift_r then set_pressed_shift false st else st in
  if Key_eqb key RECORD_KEY
     && (Bool.eqb (pressed_shift st) false || Bool.eqb (pressed_ctrl st) false)
  then
    let old := progress_current st in
    let t := task_index st in
    let st := mkState false (audio_data st) (pressed_ctrl st) (pressed_shift st)
                      (Some t) (S t) in
    let es := [progress_stop_task old; progress_remove_task old;
               print MsgCarriageReturn; progress_add_task transcribing_task t] in
    match np_concatenate (audio_data st) with
    | None => (st, es ++ [print MsgValueError])
    | Some audio_data_np =>
        let audio_data_int16 := map quantize audio_data_np in
        if (Z.of_nat (List.length audio_data_int16) <? MIN_SAMPLES_FOR_TRANSCRIBE)%Z
        then (st, es ++ [print MsgIgnoringShort;
                         progress_remove_task (Some t); progress_stop])
        else
          (mkState false (audio_data st) (pressed_ctrl st) (pressed_shift st)
                   None (S t),
           es ++ [wavfile_write recording_path sample_rate audio_data_int16]
              ++ with_handlers (transcribe_and_type g backend)
              ++ [progress_remove_task (Some t); progress_stop])
    end
  else (st, []).

Definition callback (indata : frame) (status : bool) (st : state)
  : state * list effect :=
  let es := if status then [print MsgStatus] else [] in
  if recording st
  then (set_audio_data (audio_data st ++ [indata]) st, es)
  else (st, es).

(** ** Runs

    The listener and the input stream deliver their events one at a time; a
    release carries what the backend would answer if it were asked. *)
Inductive event :=
| KeyPress (key : Key)
| KeyRelease (key : Key) (backend : backend_reply)
| AudioBlock (indata : frame) (status : bool).

Definition step (g : globals) (ev : event) (st : state) : state * list effect :=
  match ev with
  | KeyPress key => on_press key st
  | KeyRelease key backend => on_release g key backend st
  | AudioBlock indata status => callback indata status st
  end.

Fixpoint run (g : globals) (evs : list event) (st : state)
  : state * list effect :=
  match evs with
  | [] => (st, [])
  | ev :: rest =>
      let '(st1, es1) := step g ev st in
      let '(st2, es2) := run g rest st1 in
      (st2, es1 ++ es2)
  end.

(** The blocks an event list delivers, in arrival order. *)
Definition frames_of (evs : list event) : list frame :=
  flat_map (fun ev => match ev with AudioBlock indata _ => [indata] | _ => [] end)
           evs.

(** An event that can neither start nor end a session: an audio block, or the
    release of a key other than the record key. *)
Definition quiet (ev : event) : bool :=
  match ev with
  | KeyPress _ => false
  | KeyRelease key _ => negb (Key_eqb key RECORD_KEY)
  | AudioBlock _ _ => true
  end.

(** Whether both chord keys are recorded as held once [key] is pressed. *)
Definition held_after_press (key : Key) (st : state) : bool :=
  (Key_eqb key ctrl_r || pressed_ctrl st)
  && (Key_eqb key shift_r || pressed_shift st).

(** Whether [key] is recorded as held. *)
Definition recorded_as_pressed (key : Key) (st : state) : bool :=
  match key with
  | ctrl_r => pressed_ctrl st
  | shift_r => pressed_shift st
  | other_key _ => false
  end.

(** The effects every release of the record key starts with. *)
Definition release_prologue (st : state) : list effect :=
  [progress_stop_task (progress_current st);
   progress_remove_task (progress_current st);
   print MsgCarriageReturn;
   progress_add_task transcribing_task (task_index st)].

(** Sample count of the clip a release would finalize. *)
Definition buffered_samples (st : state) : Z :=
  Z.of_nat (List.length (List.concat (audio_data st))).

End Capture.

Arguments mkState {sample}.
Arguments recording {sample}.
Arguments audio_data {sample}.
Arguments pressed_ctrl {sample}.
Arguments pressed_shift {sample}.
Arguments progress_current {sample}.
Arguments task_index {sample}.
Arguments initial {sample}.
Arguments set_pressed_ctrl {sample}.
Arguments set_pressed_shift {sample}.
Arguments set_audio_data {sample}.
Arguments on_press {sample}.
Arguments np_concatenate {sample}.
Arguments on_release {sample}.
Arguments callback {sample}.
Arguments KeyPress {sample}.
Arguments KeyRelease {sample}.
Arguments AudioBlock {sample}.
Arguments step {sample}.
Arguments run {sample}.
Arguments frames_of {sample}.
Arguments quiet {sample}.
Arguments held_after_press {sample}.
Arguments recorded_as_pressed {sample}.
Arguments buffered_samples {sample}.
Arguments release_prologue {sample}.

(** One complete dictation: press both chord keys, deliver one block, release
    the record key (the backend answers [backend]), release the other key. *)
Definition dictation {sample} (indata : list sample) (backend : backend_reply)
  : list (event sample) :=
  [KeyPress ctrl_r; KeyPress shift_r; AudioBlock indata false;
   KeyRelease shift_r backend; KeyRelease ctrl_r Unreachable].

(** ** Observations on a trace of effects *)

(** The part of a trace that belongs to macro dispatch and typing. *)
Definition is_dispatch (e : effect) : bool :=
  match e with
  | call_action _ => true
  | keyboard_type _ => true
  | print (MsgMatchedFunction _ _) => true
  | print (MsgMatchedReplace _ _ _) => true
  | _ => false
  end.

Definition dispatch_trace (es : list effect) : list effect :=
  filter is_dispatch es.

(** The requests sent to the backend, by file path. *)
Definition requests_issued (es : list effect) : list string :=
  flat_map (fun e => match e with requests_post _ p => [p] | _ => [] end) es.

(** The clips written for transcription. *)
Definition wav_written (es : list effect) : list (list Z) :=
  flat_map (fun e => match e with wavfile_write _ _ d => [d] | _ => [] end) es.

(** The two "[red]Error ..." reports. *)
Definition is_error_report (e : effect) : bool :=
  match e with
  | print MsgErrorSendingRequest => true
  | print MsgErrorProcessingTranscript => true
  | _ => false
  end.

Definition error_reports (es : list effect) : list effect :=
  filter is_error_report es.

(** chord-engaged is the block of [on_press] that opens the "Recording..."
    task; chord-released is the block of [on_release] that opens the
    "Transcribing..." task. *)
Definition is_task (description : string) (e : effect) : bool :=
  match e with
  | progress_add_task d _ => String.eqb d description
  | _ => false
  end.

Definition chord_engaged_count (es : list effect) : nat :=
  List.length (filter (is_task recording_task) es).

Definition chord_released_count (es : list effect) : nat :=
  List.length (filter (is_task transcribing_task) es).

(** Number of releases of the record key among the events. *)
Definition record_key_releases {sample} (evs : list (event sample)) : nat :=
  List.length
    (filter (fun ev => match ev with
                       | KeyRelease key _ => Key_eqb key RECORD_KEY
                       | _ => false
                       end) evs).

(** The effects the request-and-type path can perform: it never touches the
    progress display or the clip file. *)
Definition is_text_path (e : effect) : bool :=
  match e with
  | print _ | call_action _ | keyboard_type _ | requests_post _ _ => true
  | _ => false
  end.

(** A request that fails in transport or with an error status. *)
Definition request_fails (backend : backend_reply) : bool :=
  match backend with
  | Unreachable => true
  | Reply r => error_status r
  end.

(** The table of the worked example: a replacement and an action. *)
Definition example_macros (raises : bool) : macro_table :=
  [("wake", Literal "hello world"); ("stop", Callable "A" raises)].

Definition example_globals (raises : bool) : globals :=
  {| RAW_MODE := RAW_MODE_default; MACROS := example_macros raises |}.

(** Samples that are already 16-bit integers, for the concrete runs. *)
Definition pcm_identity (x : Z) : Z := x.

(** A block of [n] samples, all equal to [x]. *)
Definition block (x : Z) (n : Z) : list Z := repeat x (Z.to_nat n).

(** The chord held from the start, with the blocks [blocks] delivered since. *)
Definition chord_held_with (blocks : list (list Z)) : state Z :=
  fst (run pcm_identity (example_globals false)
         ([KeyPress ctrl_r; KeyPress shift_r]
            ++ map (fun b => AudioBlock b false) blocks)
         initial).

(** ** Normal form of macro keys *)

Fixpoint all_chars (p : ascii -> bool) (s : string) : bool :=
  match s with
  | EmptyString => true
  | String c rest => p c && all_chars p rest
  end.

(** A character [sluggify] keeps and leaves as it is. *)
Definition normal_char (c : ascii) : bool :=
  PyStr.char_isalnum c && Ascii.eqb (PyStr.char_lower c) c.

Definition normal_key (key : string) : bool := all_chars normal_char key.

(** The entries of a table whose key is in normal form. *)
Definition live_entries (items : macro_table) : macro_table :=
  filter (fun entry => normal_key (fst entry)) items.

(** ** Progress tasks along a trace

    The tasks this program has added and not yet removed, and the calls that
    name a task which is not among them. *)

Definition track (open : list TaskID) (e : effect) : list TaskID :=
  match e with
  | progress_add_task _ t => open ++ [t]
  | progress_remove_task (Some t) => filter (fun u => negb (Nat.eqb u t)) open
  | _ => open
  end.

Definition open_tasks (open : list TaskID) (es : list effect) : list TaskID :=
  fold_left track es open.

Definition names_open_task (open : list TaskID) (task : option TaskID) : bool :=
  match task with
  | Some t => existsb (Nat.eqb t) open
  | None => false
  end.

Definition is_stale_call (open : list TaskID) (e : effect) : bool :=
  match e with
  | progress_start_task t => negb (names_open_task open (Some t))
  | progress_stop_task task => negb (names_open_task open task)
  | progress_remove_task task => negb (names_open_task open task)
  | _ => false
  end.

Fixpoint stale_task_calls (open : list TaskID) (es : list effect) : list effect :=
  match es with
  | [] => []
  | e :: rest =>
      (if is_stale_call open e then [e] else [])
        ++ stale_task_calls (track open e) rest
  end.

(** The task handle agrees with the open tasks: the task it names is the one
    open task, or no task is open and nothing is being recorded. *)
Definition handle_consistent {sample} (open : list TaskID) (st : state sample)
  : Prop :=
  match progress_current st with
  | Some t => open = [t] \/ (open = [] /\ recording st = false)
  | None => open = [] /\ recording st = false
  end.

(** ** Key flags along the events *)

(** Whether [key] is held after the events, given whether it was before:
    the kind of the last event that names it. *)
Fixpoint held_after {sample} (key : Key) (evs : list (event sample))
    (before : bool) : bool :=
  match evs with
  | [] => before
  | KeyPress k :: rest =>
      held_after key rest (if Key_eqb k key then true else before)
  | KeyRelease k _ :: rest =>
      held_after key rest (if Key_eqb k key then false else before)
  | AudioBlock _ _ :: rest => held_after key rest before
  end.

(** ** Startup and shutdown: [start_whisper_server], [wait_for_server], [main] *)

Inductive main_message :=
| MsgWaitingForServer
    (* "[yellow]Waiting for the server to be ready...[/yellow]" *)
| MsgTranscriberActive
    (* "[green]Transcriber is active. Hold down CTRL+SHIFT ...[/green]" *)
| MsgTimeoutError
    (* "[red]Error: {e}[/red]" *)
| MsgStopping.
    (* "\n[yellow]Stopping...[/yellow]" *)

(** The calls of the startup and shutdown code; [capture] is an effect of one
    of the three closures while the listener and the stream are running. *)
Inductive main_effect :=
| subprocess_Popen (argv : list string)
| main_print (m : main_message)
| requests_get (url : string)
| time_sleep
| listener_enter
| stream_enter
| capture (e : effect)
| stream_exit
| listener_exit
| server_terminate.

Fixpoint ends_with_sep (s : string) : bool :=
  match s with
  | EmptyString => false
  | String c EmptyString => Ascii.eqb c "/"
  | String _ rest => ends_with_sep rest
  end.

(** POSIX [os.path.join] of two components. *)
Definition os_path_join (a b : string) : string :=
  if String.prefix "/" b then b
  else if (negb (PyStr.truthy a) || ends_with_sep a)%bool then (a ++ b)%string
  else (a ++ "/" ++ b)%string.

(** [module_dir] is [os.path.dirname(__file__)]. *)
Definition start_whisper_server (module_dir : string) : list main_effect :=
  let server_script := os_path_join module_dir "server/server.py" in
  [subprocess_Popen ["python"; server_script]].

(** The answer to one [GET /health]. *)
Inductive health_reply :=
| HealthUnreachable
| HealthStatus (status_code : Z).

(** What the waiting loop meets, iteration by iteration: the loop test
    [time.time() - start_time < timeout] holds and the probe gets a reply; or
    the test fails; or a [KeyboardInterrupt] arrives, at the test (or in the
    sleep before it) or inside the probe. *)
Inductive wait_script :=
| Probe (reply : health_reply) (rest : wait_script)
| DeadlinePassed
| InterruptedWaiting
| InterruptedInProbe.

Inductive wait_outcome :=
| WaitTrue
| WaitTimeoutError
| WaitKeyboardInterrupt.

Definition health_ok (reply : health_reply) : bool :=
  match reply with
  | HealthStatus status_code => (status_code =? 200)%Z
  | HealthUnreachable => false
  end.

Fixpoint wait_for_server (script : wait_script)
  : list main_effect * wait_outcome :=
  match script with
  | Probe reply rest =>
      if health_ok reply
      then ([requests_get (SERVER_HOST ++ "/health")%string], WaitTrue)
      else
        let '(es, r) := wait_for_server rest in
        (requests_get (SERVER_HOST ++ "/health")%string :: time_sleep :: es, r)
  | DeadlinePassed => ([], WaitTimeoutError)
  | InterruptedWaiting => ([], WaitKeyboardInterrupt)
  | InterruptedInProbe =>
      ([requests_get (SERVER_HOST ++ "/health")%string], WaitKeyboardInterrupt)
  end.

(** How [main] ends: it returns, [sys.exit(code)] leaves it, or an exception
    no clause catches leaves it. *)
Inductive main_outcome :=
| MainReturned
| SystemExit (code : Z)
| Propagated.

(** What one execution of [main] meets: where the module lives, the waiting
    loop, whether the input stream can be opened, and the events delivered
    until the [KeyboardInterrupt] that ends [listener.join()]. *)
Record main_env (sample : Type) := {
  module_dir : string;
  startup : wait_script;
  stream_opens : bool;
  delivered : list (event sample)
}.
Arguments module_dir {sample}.
Arguments startup {sample}.
Arguments stream_opens {sample}.
Arguments delivered {sample}.

Definition main {sample} (quantize : sample -> Z) (g : globals)
    (env : main_env sample) : list main_effect * main_outcome :=
  let started := start_whisper_server (module_dir env) in
  let '(waited, r) := wait_for_server (startup env) in
  let until_ready := started ++ [main_print MsgWaitingForServer] ++ waited in
  match r with
  | WaitTrue =>
      if stream_opens env then
        (until_ready
           ++ [main_print MsgTranscriberActive; listener_enter; stream_enter]
           ++ map capture (snd (run quantize g (delivered env) initial))
           ++ [stream_exit; listener_exit; main_print MsgStopping;
               server_terminate],
         MainReturned)
      else
        (until_ready
           ++ [main_print MsgTranscriberActive; listener_enter; listener_exit;
               server_terminate],
         Propagated)
  | WaitTimeoutError =>
      (until_ready
         ++ [main_print MsgTimeoutError; server_terminate; server_terminate],
       SystemExit 1)
  | WaitKeyboardInterrupt =>
      (until_ready ++ [main_print MsgStopping; server_terminate], MainReturned)
  end.

(** Observations on a trace of [main]. *)
Definition terminations (es : list main_effect) : nat :=
  List.length
    (filter (fun e => match e with server_terminate => true | _ => false end) es).

Definition captured (es : list main_effect) : list effect :=
  flat_map (fun e => match e with capture c => [c] | _ => [] end) es.

Definition probes (es : list main_effect) : nat :=
  List.length
    (filter (fun e => match e with requests_get _ => true | _ => false end) es).

Definition sleeps (es : list main_effect) : nat :=
  List.length
    (filter (fun e => match e with time_sleep => true | _ => false end) es).

(** ** Runs of key events *)

Definition is_key_event {sample} (ev : event sample) : bool :=
  match ev with
  | KeyPress _ | KeyRelease _ _ => true
  | AudioBlock _ _ => false
  end.

(** The number of press events after which both chord keys are held, given
    whether [ctrl_r] and [shift_r] are held before the events. *)
Fixpoint engaging_presses {sample} (evs : list (event sample))
    (ctrl shift : bool) : nat :=
  match evs with
  | [] => 0
  | KeyPress k :: rest =>
      let ctrl' := Key_eqb k ctrl_r || ctrl in
      let shift' := Key_eqb k shift_r || shift in
      (if ctrl' && shift' then 1 else 0) + engaging_presses rest ctrl' shift'
  | KeyRelease k _ :: rest =>
      engaging_presses rest (if Key_eqb k ctrl_r then false else ctrl)
                       (if Key_eqb k shift_r then false else shift)
  | AudioBlock _ _ :: rest => engaging_presses rest ctrl shift
  end.

(** A text without an opening square bracket holds no markup tag. *)
Definition markup_free (s : string) : bool :=
  all_chars (fun c => negb (Ascii.eqb c "["%char)) s.

(** ** The macro dispatcher *)

Lemma macro_loop_no_match (sluggified : string) (items : macro_table) (text : string) :
  (forall key value, In (key, value) items -> key <> sluggified) ->
  macro_loop sluggified items text = ret text.
Proof.
  induction items as [|[key value] rest IH]; intros Hno; simpl.
  - reflexivity.
  - destruct (String.eqb_spec sluggified key) as [Heq|Hne].
    + exfalso. apply (Hno key value); [now left | now symmetry].
    + apply IH. intros k v Hin. apply (Hno k v). now right.
Qed.

Lemma process_typed_no_match (g : globals) (text : string) :
  (forall key value, In (key, value) (MACROS g) -> key <> sluggify text) ->
  process_typed g text
  = (if PyStr.truthy text then [keyboard_type text] else [], Returned tt).
Proof.
  intros Hno. unfold process_typed.
  destruct (RAW_MODE g); simpl.
  - destruct (PyStr.truthy text); reflexivity.
  - rewrite (macro_loop_no_match _ _ _ Hno). simpl.
    destruct (PyStr.truthy text); reflexivity.
Qed.

Lemma sink_text_single (text : string) :
  sink_text (if PyStr.truthy text then [keyboard_type text] else []) = text.
Proof.
  destruct text as [|c rest]; simpl; [reflexivity|].
  unfold sink_text. simpl. reflexivity.
Qed.

(** C5. With raw mode off and the table {"wake": "hello world", "stop": A},
    the whole input is normalised (lower case, alphanumerics only) and
    compared with the keys: "Wake" types "hello world"; "please Stop now"
    normalises to "pleasestopnow", matches nothing, is typed unchanged and A
    is not called; "STOP" calls A and types nothing. *)
Theorem macro_dispatch_matches_whole_text (raises : bool) :
  let g := example_globals raises in
  RAW_MODE g = false
  /\ sluggify "Wake" = "wake"
  /\ effects_of (process_typed g "Wake")
     = [print (MsgMatchedReplace "wake" "wake" "hello world");
        keyboard_type "hello world"]
  /\ sluggify "please Stop now" = "pleasestopnow"
  /\ process_typed g "please Stop now"
     = ([keyboard_type "please Stop now"], Returned tt)
  /\ actions_called (effects_of (process_typed g "please Stop now")) = []
  /\ sluggify "STOP" = "stop"
  /\ effects_of (process_typed g "STOP")
     = [print (MsgMatchedFunction "stop" "stop"); call_action "A"]
  /\ typed_texts (effects_of (process_typed g "STOP")) = []
  /\ sink_text (effects_of (process_typed g "STOP")) = "".
Proof.
  destruct raises; cbv; repeat split; reflexivity.
Qed.

(** C6. With raw mode on, whatever the text and the table, no macro is
    matched and the text handed to the sink is the original text. *)
Theorem raw_mode_emits_text_unchanged (macros : macro_table) (text : string) :
  let g := {| RAW_MODE := true; MACROS := macros |} in
  process_typed g text
  = (if PyStr.truthy text then [keyboard_type text] else [], Returned tt)
  /\ sink_text (effects_of (process_typed g text)) = text
  /\ actions_called (effects_of (process_typed g text)) = []
  /\ dispatch_trace (effects_of (process_typed g text))
     = (if PyStr.truthy text then [keyboard_type text] else []).
Proof.
  assert (H : process_typed {| RAW_MODE := true; MACROS := macros |} text
              = (if PyStr.truthy text then [keyboard_type text] else [],
                 Returned tt)).
  { unfold process_typed. simpl. destruct (PyStr.truthy text); reflexivity. }
  cbv zeta. rewrite H. unfold effects_of. cbn [fst].
  repeat split.
  - apply sink_text_single.
  - destruct (PyStr.truthy text); reflexivity.
  - destruct (PyStr.truthy text); reflexivity.
Qed.

(** ** The finalize path of [on_release] *)

Lemma dispatch_trace_app (a b : list effect) :
  dispatch_trace (a ++ b) = dispatch_trace a ++ dispatch_trace b.
Proof. apply filter_app. Qed.

Lemma with_handlers_dispatch (m : M unit) :
  dispatch_trace (with_handlers m) = dispatch_trace (effects_of m).
Proof.
  destruct m as [es [a|e]]; simpl; [reflexivity|].
  destruct e; rewrite dispatch_trace_app; simpl; apply app_nil_r.
Qed.

Lemma transcribe_failed (g : globals) (backend : backend_reply) :
  request_fails backend = true ->
  with_handlers (transcribe_and_type g backend)
  = [requests_post (SERVER_HOST ++ "/transcribe")%string recording_path;
     print MsgErrorSendingRequest].
Proof.
  destruct backend as [|[status b]]; simpl; intros H; [reflexivity|].
  subst status. reflexivity.
Qed.

Lemma transcribe_empty_text (g : globals) :
  with_handlers
    (transcribe_and_type g (Reply {| error_status := false; body := TextField "" |}))
  = [requests_post (SERVER_HOST ++ "/transcribe")%string recording_path].
Proof. reflexivity. Qed.

Lemma transcribe_text (g : globals) (text : string) :
  PyStr.truthy text = true ->
  transcribe_and_type g (Reply {| error_status := false; body := TextField text |})
  = (requests_post (SERVER_HOST ++ "/transcribe")%string recording_path
       :: print (MsgTranscript text) :: effects_of (process_typed g text),
     outcome_of (process_typed g text)).
Proof.
  intros Ht. unfold transcribe_and_type, post, raise_for_status, json_text.
  cbn [error_status body]. unfold bind at 1. cbn [emit ret].
  unfold bind at 1. cbn. rewrite Ht. cbn.
  destruct (process_typed g text) as [es [[]|e]]; reflexivity.
Qed.

Section CaptureFacts.

Variable sample : Type.
Variable quantize : sample -> Z.

Lemma on_release_record_key (g : globals) (backend : backend_reply) (st : state sample) :
  on_release quantize g RECORD_KEY backend st
  = match audio_data st with
    | [] =>
        (mkState false [] (pressed_ctrl st) false
                 (Some (task_index st)) (S (task_index st)),
         release_prologue st ++ [print MsgValueError])
    | _ :: _ =>
        if (buffered_samples st <? MIN_SAMPLES_FOR_TRANSCRIBE)%Z
        then
          (mkState false (audio_data st) (pressed_ctrl st) false
                   (Some (task_index st)) (S (task_index st)),
           release_prologue st
             ++ [print MsgIgnoringShort;
                 progress_remove_task (Some (task_index st)); progress_stop])
        else
          (mkState false (audio_data st) (pressed_ctrl st) false
                   None (S (task_index st)),
           release_prologue st
             ++ [wavfile_write recording_path sample_rate
                   (map quantize (List.concat (audio_data st)))]
             ++ with_handlers (transcribe_and_type g backend)
             ++ [progress_remove_task (Some (task_index st)); progress_stop])
    end.
Proof.
  destruct st as [rec audio pc ps cur idx].
  unfold on_release, buffered_samples, release_prologue. cbn.
  destruct audio as [|f rest]; cbn; [reflexivity|].
  rewrite length_map. reflexivity.
Qed.

Lemma on_release_other_key (g : globals) (key : Key) (backend : backend_reply)
    (st : state sample) :
  Key_eqb key RECORD_KEY = false ->
  on_release quantize g key backend st
  = (if Key_eqb key ctrl_r then set_pressed_ctrl false st else st, []).
Proof.
  intros Hk. unfold on_release.
  destruct key; cbn in *; try discriminate; reflexivity.
Qed.

Lemma run_app (g : globals) (evs1 evs2 : list (event sample)) (st : state sample) :
  run quantize g (evs1 ++ evs2) st
  = (fst (run quantize g evs2 (fst (run quantize g evs1 st))),
     snd (run quantize g evs1 st)
       ++ snd (run quantize g evs2 (fst (run quantize g evs1 st)))).
Proof.
  revert st. induction evs1 as [|ev rest IH]; intros st; simpl.
  - destruct (run quantize g evs2 st); reflexivity.
  - destruct (step quantize g ev st) as [st1 es1].
    rewrite IH.
    destruct (run quantize g rest st1) as [st2 es2]. simpl.
    destruct (run quantize g evs2 st2) as [st3 es3]. simpl.
    now rewrite app_assoc.
Qed.

(** C4. On release of the record key, a buffer with no block, or whose
    concatenation has fewer than 8000 samples, is dropped: no file is
    written, no request is sent, nothing is dispatched or typed, and the only
    report is the plain [ValueError] text (no block) or the yellow
    "Ignoring short response" line, never one of the red error reports. *)
Theorem short_or_empty_clip_is_dropped (g : globals) (backend : backend_reply)
    (st : state sample) :
  (buffered_samples st < MIN_SAMPLES_FOR_TRANSCRIBE)%Z ->
  let es := snd (on_release quantize g RECORD_KEY backend st) in
  requests_issued es = []
  /\ wav_written es = []
  /\ dispatch_trace es = []
  /\ error_reports es = []
  /\ es = release_prologue st
            ++ match audio_data st with
               | [] => [print MsgValueError]
               | _ :: _ => [print MsgIgnoringShort;
                            progress_remove_task (Some (task_index st));
                            progress_stop]
               end.
Proof.
  intros Hshort. cbv zeta. rewrite on_release_record_key.
  destruct (audio_data st) as [|f rest] eqn:Haudio.
  - cbn. repeat split; reflexivity.
  - destruct (Z.ltb_spec (buffered_samples st) MIN_SAMPLES_FOR_TRANSCRIBE)
      as [_|Hlong]; [|lia].
    cbn. repeat split; reflexivity.
Qed.

(** C7. When the request fails in transport or with an error status, nothing
    is dispatched, no action runs and nothing is typed; the failure is
    reported once, the progress task is cleared, recording is off, and
    pressing the two chord keys again engages a fresh, empty session. *)
Theorem failed_request_types_nothing_and_capture_continues
    (g : globals) (backend : backend_reply) (st : state sample) :
  request_fails backend = true ->
  let st' := fst (on_release quantize g RECORD_KEY backend st) in
  let es := snd (on_release quantize g RECORD_KEY backend st) in
  let again := run quantize g [KeyPress ctrl_r; KeyPress shift_r] st' in
  dispatch_trace es = []
  /\ actions_called es = []
  /\ typed_texts es = []
  /\ ((MIN_SAMPLES_FOR_TRANSCRIBE <= buffered_samples st)%Z ->
      requests_issued es = [recording_path]
      /\ error_reports es = [print MsgErrorSendingRequest]
      /\ progress_current st' = None)
  /\ recording st' = false
  /\ recording (fst again) = true
  /\ audio_data (fst again) = []
  /\ chord_engaged_count (snd again) = 1.
Proof.
  intros Hfail. cbv zeta. rewrite on_release_record_key.
  rewrite (transcribe_failed g backend Hfail).
  destruct (audio_data st) as [|f rest] eqn:Haudio.
  - cbn [fst snd].
    assert (Hs : (buffered_samples st < MIN_SAMPLES_FOR_TRANSCRIBE)%Z).
    { unfold buffered_samples. rewrite Haudio. reflexivity. }
    repeat split; try reflexivity.
    all: try (intros; lia).
    all: unfold run, step, on_press; cbn; destruct (pressed_ctrl st); reflexivity.
  - destruct (Z.ltb_spec (buffered_samples st) MIN_SAMPLES_FOR_TRANSCRIBE)
      as [Hs|Hl]; cbn [fst snd].
    + repeat split; try reflexivity.
      all: try (intros; lia).
      all: unfold run, step, on_press; cbn; destruct (pressed_ctrl st); reflexivity.
    + repeat split; try reflexivity.
      all: unfold run, step, on_press; cbn; destruct (pressed_ctrl st); reflexivity.
Qed.

(** C10. When the backend answers with an empty text, [process_typed] is not
    called: nothing of the macro layer appears in the trace, no action runs
    and nothing is typed, whatever the table; whereas [process_typed] itself,
    given the empty text and a table with the empty key, would run that
    entry's action. *)
Theorem empty_transcript_is_dropped_before_dispatch
    (g : globals) (key : Key) (status : bool) (st : state sample) :
  let reply := Reply {| error_status := status; body := TextField "" |} in
  let es := snd (on_release quantize g key reply st) in
  dispatch_trace es = []
  /\ actions_called es = []
  /\ typed_texts es = []
  /\ actions_called
       (effects_of
          (process_typed {| RAW_MODE := false;
                            MACROS := [("", Callable "A" false)] |} ""))
     = ["A"].
Proof.
  cbv zeta.
  destruct (Key_eqb key RECORD_KEY) eqn:Hk.
  - assert (key = RECORD_KEY) as ->.
    { destruct key; cbn in Hk; try discriminate; reflexivity. }
    rewrite on_release_record_key.
    destruct (audio_data st) as [|f rest];
      [|destruct (buffered_samples st <? MIN_SAMPLES_FOR_TRANSCRIBE)%Z];
      destruct status; cbn; repeat split; reflexivity.
  - rewrite on_release_other_key by assumption. cbn. repeat split; reflexivity.
Qed.

Lemma on_press_dispatch (key : Key) (st : state sample) :
  dispatch_trace (snd (on_press key st)) = [].
Proof.
  unfold on_press.
  destruct key, st as [rec audio [] [] [cur|] idx]; reflexivity.
Qed.

Lemma callback_dispatch (indata : list sample) (status : bool) (st : state sample) :
  dispatch_trace (snd (callback indata status st)) = [].
Proof.
  unfold callback. destruct (recording st), status; reflexivity.
Qed.

Lemma run_cons (g : globals) (ev : event sample) (rest : list (event sample))
    (st : state sample) :
  run quantize g (ev :: rest) st
  = (fst (run quantize g rest (fst (step quantize g ev st))),
     snd (step quantize g ev st)
       ++ snd (run quantize g rest (fst (step quantize g ev st)))).
Proof.
  simpl. destruct (step quantize g ev st) as [st1 es1]. cbn [fst snd].
  destruct (run quantize g rest st1) as [st2 es2]. reflexivity.
Qed.

Lemma chord_presses_engage (st : state sample) :
  let st2 := fst (on_press shift_r (fst (on_press ctrl_r st))) in
  recording st2 = true /\ audio_data st2 = [].
Proof.
  destruct st as [rec audio pc [] cur idx]; cbn; split; reflexivity.
Qed.

(** *** Effects of the request-and-type path *)

Lemma bind_text_path {A B} (m : M A) (k : A -> M B) :
  forallb is_text_path (effects_of m) = true ->
  (forall a, forallb is_text_path (effects_of (k a)) = true) ->
  forallb is_text_path (effects_of (bind m k)) = true.
Proof.
  intros Hm Hk. destruct m as [es [a|e]]; cbn in *; [|assumption].
  specialize (Hk a). destruct (k a) as [es' r]. cbn in *.
  rewrite forallb_app, Hm, Hk. reflexivity.
Qed.

Lemma macro_loop_text_path (sluggified : string) (items : macro_table)
    (text : string) :
  forallb is_text_path (effects_of (macro_loop sluggified items text)) = true.
Proof.
  revert text.
  induction items as [|[key value] rest IH]; intros text; cbn [macro_loop].
  - reflexivity.
  - destruct (String.eqb sluggified key); [|apply IH].
    destruct value as [v|name raises].
    + reflexivity.
    + apply bind_text_path; [reflexivity|intros _].
      apply bind_text_path; [destruct raises; reflexivity|intros _]. apply IH.
Qed.

Lemma process_typed_text_path (g : globals) (text : string) :
  forallb is_text_path (effects_of (process_typed g text)) = true.
Proof.
  unfold process_typed. apply bind_text_path.
  - destruct (RAW_MODE g); cbn; [reflexivity|apply macro_loop_text_path].
  - intros t. destruct (PyStr.truthy t); reflexivity.
Qed.

Lemma transcribe_text_path (g : globals) (backend : backend_reply) :
  forallb is_text_path (with_handlers (transcribe_and_type g backend)) = true.
Proof.
  assert (H : forallb is_text_path
                (effects_of (transcribe_and_type g backend)) = true).
  { unfold transcribe_and_type. apply bind_text_path.
    - destruct backend; reflexivity.
    - intros r. apply bind_text_path.
      + unfold raise_for_status. destruct (error_status r); reflexivity.
      + intros _. apply bind_text_path.
        * unfold json_text. destruct (body r); reflexivity.
        * intros t. destruct (PyStr.truthy t); [|reflexivity].
          apply bind_text_path; [reflexivity|intros _].
          apply process_typed_text_path. }
  destruct (transcribe_and_type g backend) as [es [a|e]]; cbn in *;
    [assumption|].
  destruct e; rewrite forallb_app, H; reflexivity.
Qed.

Lemma text_path_no_task (description : string) (es : list effect) :
  forallb is_text_path es = true -> filter (is_task description) es = [].
Proof.
  induction es as [|e rest IH]; cbn; [reflexivity|].
  intros H. apply andb_true_iff in H as [He Hrest].
  destruct e; cbn in *; try discriminate; now apply IH.
Qed.

Lemma text_path_no_wav (es : list effect) :
  forallb is_text_path es = true -> wav_written es = [].
Proof.
  induction es as [|e rest IH]; cbn; [reflexivity|].
  intros H. apply andb_true_iff in H as [He Hrest].
  destruct e; cbn in *; try discriminate; now apply IH.
Qed.

Lemma wav_written_app (a b : list effect) :
  wav_written (a ++ b) = wav_written a ++ wav_written b.
Proof. apply flat_map_app. Qed.

Lemma chord_released_count_app (a b : list effect) :
  chord_released_count (a ++ b)
  = chord_released_count a + chord_released_count b.
Proof. unfold chord_released_count. now rewrite filter_app, length_app. Qed.

(** *** One step at a time *)

Lemma on_press_engaged (key : Key) (st : state sample) :
  held_after_press key st = true ->
  on_press key st
  = (mkState true [] true true (Some (task_index st)) (S (task_index st)),
     match progress_current st with
     | Some t => [progress_stop; progress_remove_task (Some t)]
     | None => []
     end ++ [progress_start; progress_add_task recording_task (task_index st);
             progress_start_task (task_index st)]).
Proof.
  unfold held_after_press, on_press.
  destruct key, st as [rec audio [] [] cur idx]; cbn; intros H;
    try discriminate; reflexivity.
Qed.

Lemma on_press_not_engaged (key : Key) (st : state sample) :
  held_after_press key st = false ->
  on_press key st
  = (mkState (recording st) (audio_data st)
             (Key_eqb key ctrl_r || pressed_ctrl st)
             (Key_eqb key shift_r || pressed_shift st)
             (progress_current st) (task_index st), []).
Proof.
  unfold held_after_press, on_press.
  destruct key, st as [rec audio [] [] cur idx]; cbn; intros H;
    try discriminate; reflexivity.
Qed.

Lemma on_release_audio (g : globals) (key : Key) (backend : backend_reply)
    (st : state sample) :
  audio_data (fst (on_release quantize g key backend st)) = audio_data st.
Proof.
  destruct (Key_eqb key RECORD_KEY) eqn:Hk.
  - assert (key = RECORD_KEY) as ->.
    { destruct key; cbn in Hk; try discriminate; reflexivity. }
    rewrite on_release_record_key.
    destruct (audio_data st) as [|f rest] eqn:Ha; [reflexivity|].
    destruct (buffered_samples st <? MIN_SAMPLES_FOR_TRANSCRIBE)%Z;
      reflexivity.
  - rewrite on_release_other_key by assumption.
    destruct (Key_eqb key ctrl_r); reflexivity.
Qed.

Lemma on_release_released_count (g : globals) (key : Key)
    (backend : backend_reply) (st : state sample) :
  chord_released_count (snd (on_release quantize g key backend st))
  = if Key_eqb key RECORD_KEY then 1 else 0.
Proof.
  destruct (Key_eqb key RECORD_KEY) eqn:Hk.
  - assert (key = RECORD_KEY) as ->.
    { destruct key; cbn in Hk; try discriminate; reflexivity. }
    rewrite on_release_record_key.
    destruct (audio_data st) as [|f rest]; [reflexivity|].
    destruct (buffered_samples st <? MIN_SAMPLES_FOR_TRANSCRIBE)%Z;
      [reflexivity|].
    cbn [snd]. rewrite !chord_released_count_app.
    unfold chord_released_count at 3.
    rewrite (text_path_no_task _ _ (transcribe_text_path g backend)).
    reflexivity.
  - rewrite on_release_other_key by assumption. reflexivity.
Qed.

Lemma on_release_recording (g : globals) (key : Key) (backend : backend_reply)
    (st : state sample) :
  recording (fst (on_release quantize g key backend st))
  = if Key_eqb key RECORD_KEY then false else recording st.
Proof.
  destruct (Key_eqb key RECORD_KEY) eqn:Hk.
  - assert (key = RECORD_KEY) as ->.
    { destruct key; cbn in Hk; try discriminate; reflexivity. }
    rewrite on_release_record_key.
    destruct (audio_data st) as [|f rest]; [reflexivity|].
    destruct (buffered_samples st <? MIN_SAMPLES_FOR_TRANSCRIBE)%Z;
      reflexivity.
  - rewrite on_release_other_key by assumption.
    destruct (Key_eqb key ctrl_r); reflexivity.
Qed.

Lemma on_press_released_count (key : Key) (st : state sample) :
  chord_released_count (snd (on_press key st)) = 0.
Proof.
  unfold on_press.
  destruct key, st as [rec audio [] [] [cur|] idx]; reflexivity.
Qed.

Lemma callback_released_count (indata : list sample) (status : bool)
    (st : state sample) :
  chord_released_count (snd (callback indata status st)) = 0.
Proof. unfold callback. destruct (recording st), status; reflexivity. Qed.

Lemma on_release_engaged_count (g : globals) (key : Key)
    (backend : backend_reply) (st : state sample) :
  chord_engaged_count (snd (on_release quantize g key backend st)) = 0.
Proof.
  destruct (Key_eqb key RECORD_KEY) eqn:Hk.
  - assert (key = RECORD_KEY) as ->.
    { destruct key; cbn in Hk; try discriminate; reflexivity. }
    rewrite on_release_record_key.
    destruct (audio_data st) as [|f rest]; [reflexivity|].
    destruct (buffered_samples st <? MIN_SAMPLES_FOR_TRANSCRIBE)%Z;
      [reflexivity|].
    cbn [snd]. unfold chord_engaged_count. rewrite !filter_app.
    rewrite (text_path_no_task _ _ (transcribe_text_path g backend)).
    reflexivity.
  - rewrite on_release_other_key by assumption. reflexivity.
Qed.

Lemma run_released_count (g : globals) (evs : list (event sample))
    (st : state sample) :
  chord_released_count (snd (run quantize g evs st)) = record_key_releases evs.
Proof.
  revert st. induction evs as [|ev rest IH]; intros st.
  - reflexivity.
  - rewrite run_cons. cbn [snd]. rewrite chord_released_count_app, IH.
    destruct ev as [key|key backend|indata status]; cbn [step].
    + now rewrite on_press_released_count.
    + rewrite on_release_released_count. unfold record_key_releases. cbn.
      destruct (Key_eqb key RECORD_KEY); reflexivity.
    + now rewrite callback_released_count.
Qed.

(** C1, as the code has it.  While both chord keys are recorded as held,
    every further press event, of a held chord key or of any other key, runs
    the engagement again: recording stays on, the "Recording..." task is
    opened anew, and the blocks buffered so far are discarded. *)
Theorem press_while_engaged_restarts_session (key : Key) (st : state sample) :
  pressed_ctrl st = true ->
  pressed_shift st = true ->
  recording (fst (on_press key st)) = true
  /\ audio_data (fst (on_press key st)) = []
  /\ chord_engaged_count (snd (on_press key st)) = 1
  /\ on_press key st
     = (mkState true [] true true (Some (task_index st)) (S (task_index st)),
        match progress_current st with
        | Some t => [progress_stop; progress_remove_task (Some t)]
        | None => []
        end ++ [progress_start;
                progress_add_task recording_task (task_index st);
                progress_start_task (task_index st)]).
Proof.
  intros Hc Hs.
  assert (Hheld : held_after_press key st = true).
  { unfold held_after_press. rewrite Hc, Hs. now rewrite !orb_true_r. }
  rewrite (on_press_engaged key st Hheld). cbn [fst snd recording audio_data].
  repeat split.
  destruct (progress_current st); reflexivity.
Qed.

(** *** Where the buffered blocks come from *)

Lemma quiet_run (g : globals) (mid : list (event sample)) (st : state sample) :
  forallb quiet mid = true ->
  recording st = true ->
  recording (fst (run quantize g mid st)) = true
  /\ audio_data (fst (run quantize g mid st)) = audio_data st ++ frames_of mid.
Proof.
  revert st. induction mid as [|ev rest IH]; intros st Hq Hrec.
  - cbn. now rewrite app_nil_r.
  - cbn [forallb] in Hq. apply andb_true_iff in Hq as [Hev Hrest].
    rewrite run_cons. cbn [fst].
    destruct ev as [key|key backend|indata status]; cbn [step quiet] in *.
    + discriminate.
    + apply negb_true_iff in Hev.
      destruct (IH (fst (on_release quantize g key backend st)) Hrest) as [Hr Ha].
      { now rewrite on_release_recording, Hev. }
      split; [exact Hr|]. rewrite Ha, on_release_audio. reflexivity.
    + unfold callback. rewrite Hrec. cbn [fst].
      destruct (IH (set_audio_data (audio_data st ++ [indata]) st) Hrest Hrec)
        as [Hr Ha].
      split; [exact Hr|]. rewrite Ha. cbn. now rewrite <- app_assoc.
Qed.

Lemma on_press_audio (key : Key) (st : state sample) (f : list sample) :
  In f (audio_data (fst (on_press key st))) -> In f (audio_data st).
Proof.
  destruct (held_after_press key st) eqn:H.
  - rewrite (on_press_engaged key st H). cbn. tauto.
  - rewrite (on_press_not_engaged key st H). cbn. tauto.
Qed.

Lemma buffered_blocks_were_recorded (g : globals) (evs : list (event sample))
    (st0 : state sample) (f : list sample) :
  In f (audio_data (fst (run quantize g evs st0))) ->
  In f (audio_data st0)
  \/ exists before status after,
       evs = before ++ AudioBlock f status :: after
       /\ recording (fst (run quantize g before st0)) = true.
Proof.
  revert st0. induction evs as [|ev rest IH]; intros st0 Hin.
  - now left.
  - rewrite run_cons in Hin. cbn [fst] in Hin.
    destruct (IH _ Hin) as [Hstep|(before & status & after & Heq & Hrec)].
    + destruct ev as [key|key backend|indata status]; cbn [step] in Hstep.
      * left. now apply on_press_audio in Hstep.
      * left. now rewrite on_release_audio in Hstep.
      * unfold callback in Hstep. destruct (recording st0) eqn:Hrec.
        -- cbn in Hstep. apply in_app_iff in Hstep as [Hold|[Hnew|[]]].
           ++ now left.
           ++ right. exists [], status, rest. subst f. split; [reflexivity|].
              exact Hrec.
        -- now left.
    + right. exists (ev :: before), status, after. split.
      * now rewrite Heq.
      * rewrite run_cons. exact Hrec.
Qed.

Lemma on_release_wav (g : globals) (key : Key) (backend : backend_reply)
    (st : state sample) :
  wav_written (snd (on_release quantize g key backend st))
  = if Key_eqb key RECORD_KEY
    then if (buffered_samples st <? MIN_SAMPLES_FOR_TRANSCRIBE)%Z
         then []
         else [map quantize (List.concat (audio_data st))]
    else [].
Proof.
  destruct (Key_eqb key RECORD_KEY) eqn:Hk.
  - assert (key = RECORD_KEY) as ->.
    { destruct key; cbn in Hk; try discriminate; reflexivity. }
    rewrite on_release_record_key.
    destruct (audio_data st) as [|f rest] eqn:Ha.
    + unfold buffered_samples. rewrite Ha. reflexivity.
    + destruct (buffered_samples st <? MIN_SAMPLES_FOR_TRANSCRIBE)%Z;
        [reflexivity|].
      cbn [snd]. rewrite !wav_written_app.
      rewrite (text_path_no_wav _ (transcribe_text_path g backend)).
      reflexivity.
  - rewrite on_release_other_key by assumption. reflexivity.
Qed.


(** *** Releases of keys that are not held *)

Lemma step_keeps_shift_held_while_recording (g : globals) (ev : event sample)
    (st : state sample) :
  (recording st = true -> pressed_shift st = true) ->
  recording (fst (step quantize g ev st)) = true ->
  pressed_shift (fst (step quantize g ev st)) = true.
Proof.
  intros Hinv. destruct ev as [key|key backend|indata status]; cbn [step].
  - destruct (held_after_press key st) eqn:H.
    + now rewrite (on_press_engaged key st H).
    + rewrite (on_press_not_engaged key st H). cbn. intros Hrec.
      rewrite (Hinv Hrec). apply orb_true_r.
  - rewrite on_release_recording.
    destruct (Key_eqb key RECORD_KEY) eqn:Hk; [discriminate|].
    rewrite on_release_other_key by assumption.
    destruct (Key_eqb key ctrl_r); exact Hinv.
  - unfold callback. destruct (recording st) eqn:Hrec; cbn.
    + intros _. now apply Hinv.
    + intros H. rewrite Hrec in H. discriminate.
Qed.

Lemma run_keeps_shift_held_while_recording (g : globals)
    (evs : list (event sample)) (st : state sample) :
  (recording st = true -> pressed_shift st = true) ->
  recording (fst (run quantize g evs st)) = true ->
  pressed_shift (fst (run quantize g evs st)) = true.
Proof.
  revert st. induction evs as [|ev rest IH]; intros st Hinv.
  - exact Hinv.
  - rewrite run_cons. cbn [fst]. apply IH.
    now apply step_keeps_shift_held_while_recording.
Qed.

End CaptureFacts.

(** ** Concrete runs *)

Lemma short_or_empty_clip_is_dropped_witness :
  (buffered_samples (chord_held_with [[1; 2; 3]%Z]) < MIN_SAMPLES_FOR_TRANSCRIBE)%Z
  /\ requests_issued
       (snd (on_release pcm_identity (example_globals false) RECORD_KEY
               (Reply {| error_status := false; body := TextField "wake" |})
               (chord_held_with [[1; 2; 3]%Z])))
     = [].
Proof.
  split; [reflexivity|].
  apply (short_or_empty_clip_is_dropped Z pcm_identity (example_globals false)
           (Reply {| error_status := false; body := TextField "wake" |})
           (chord_held_with [[1; 2; 3]%Z])).
  reflexivity.
Defined.

Lemma failed_request_witness :
  request_fails Unreachable = true
  /\ typed_texts
       (snd (on_release pcm_identity (example_globals false) RECORD_KEY
               Unreachable (chord_held_with [block 0 8000])))
     = [].
Proof.
  split; [reflexivity|].
  apply (failed_request_types_nothing_and_capture_continues
           Z pcm_identity (example_globals false) Unreachable
           (chord_held_with [block 0 8000])).
  reflexivity.
Defined.

Lemma press_while_engaged_witness :
  pressed_ctrl (chord_held_with [[1; 2; 3]%Z]) = true
  /\ pressed_shift (chord_held_with [[1; 2; 3]%Z]) = true
  /\ audio_data (fst (on_press shift_r (chord_held_with [[1; 2; 3]%Z]))) = [].
Proof.
  split; [reflexivity|]. split; [reflexivity|].
  apply (press_while_engaged_restarts_session Z shift_r
           (chord_held_with [[1; 2; 3]%Z])); reflexivity.
Defined.


(** Counterexample to C1 as stated: with the chord engaged and one block buffered, a
    further press of the held shift key fires chord-engaged again and empties
    the buffer. *)
Lemma repeated_press_discards_buffered_audio :
  let st := chord_held_with [[1; 2; 3]%Z] in
  pressed_ctrl st = true
  /\ pressed_shift st = true
  /\ recording st = true
  /\ audio_data st = [[1; 2; 3]%Z]
  /\ chord_engaged_count (snd (on_press shift_r st)) = 1
  /\ audio_data (fst (on_press shift_r st)) = [].
Proof. cbv zeta. repeat split; reflexivity. Qed.



(** ** Further properties of the dispatcher *)

Lemma char_lower_isalnum (c : ascii) :
  PyStr.char_isalnum (PyStr.char_lower c) = PyStr.char_isalnum c.
Proof. destruct c as [[] [] [] [] [] [] [] []]; reflexivity. Qed.

Lemma char_lower_idempotent (c : ascii) :
  PyStr.char_lower (PyStr.char_lower c) = PyStr.char_lower c.
Proof. destruct c as [[] [] [] [] [] [] [] []]; reflexivity. Qed.

Lemma lower_idempotent (s : string) :
  PyStr.lower (PyStr.lower s) = PyStr.lower s.
Proof.
  induction s as [|c rest IH]; cbn; [reflexivity|].
  now rewrite char_lower_idempotent, IH.
Qed.

Lemma lower_join_if (s : string) :
  PyStr.lower (PyStr.join_if PyStr.char_isalnum s)
  = PyStr.join_if PyStr.char_isalnum (PyStr.lower s).
Proof.
  induction s as [|c rest IH]; cbn; [reflexivity|].
  rewrite char_lower_isalnum.
  destruct (PyStr.char_isalnum c); cbn; now rewrite IH.
Qed.

Lemma join_if_idempotent (p : ascii -> bool) (s : string) :
  PyStr.join_if p (PyStr.join_if p s) = PyStr.join_if p s.
Proof.
  induction s as [|c rest IH]; cbn; [reflexivity|].
  destruct (p c) eqn:Hp; cbn; [rewrite Hp, IH|]; auto.
Qed.

Lemma lower_append (a b : string) :
  PyStr.lower (a ++ b)%string = (PyStr.lower a ++ PyStr.lower b)%string.
Proof. induction a as [|c rest IH]; cbn; [reflexivity|]. now rewrite IH. Qed.

Lemma join_if_append (p : ascii -> bool) (a b : string) :
  PyStr.join_if p (a ++ b)%string
  = (PyStr.join_if p a ++ PyStr.join_if p b)%string.
Proof.
  induction a as [|c rest IH]; cbn; [reflexivity|].
  destruct (p c); cbn; now rewrite IH.
Qed.

Lemma join_if_length (p : ascii -> bool) (s : string) :
  String.length (PyStr.join_if p s) <= String.length s.
Proof.
  induction s as [|c rest IH]; cbn; [lia|]. destruct (p c); cbn; lia.
Qed.

Lemma lower_length (s : string) :
  String.length (PyStr.lower s) = String.length s.
Proof. induction s as [|c rest IH]; cbn; [reflexivity|]. now rewrite IH. Qed.

Lemma sluggify_idempotent (s : string) : sluggify (sluggify s) = sluggify s.
Proof.
  unfold sluggify.
  now rewrite lower_join_if, lower_idempotent, join_if_idempotent.
Qed.

Lemma sluggify_normal (s : string) : normal_key (sluggify s) = true.
Proof.
  unfold sluggify, normal_key.
  induction s as [|c rest IH]; cbn; [reflexivity|].
  destruct (PyStr.char_isalnum (PyStr.char_lower c)) eqn:Hc; [|exact IH].
  cbn. rewrite IH. unfold normal_char.
  rewrite Hc, char_lower_idempotent, Ascii.eqb_refl. reflexivity.
Qed.

Lemma normal_key_fixed (s : string) : normal_key s = true -> sluggify s = s.
Proof.
  unfold sluggify, normal_key.
  induction s as [|c rest IH]; cbn; [reflexivity|].
  intros H. apply andb_true_iff in H as [Hc Hrest].
  unfold normal_char in Hc. apply andb_true_iff in Hc as [Halnum Hlow].
  apply Ascii.eqb_eq in Hlow. rewrite Hlow, Halnum, (IH Hrest). reflexivity.
Qed.

(** X1. The normalisation of [process_typed] is idempotent, its result holds
    only characters that are alphanumeric and unchanged by lowering, and the
    strings it leaves as they are are exactly those made of such
    characters. *)
Theorem sluggify_reaches_normal_form (s : string) :
  sluggify (sluggify s) = sluggify s
  /\ normal_key (sluggify s) = true
  /\ (normal_key s = true <-> sluggify s = s).
Proof.
  split; [apply sluggify_idempotent|]. split; [apply sluggify_normal|].
  split; [apply normal_key_fixed|].
  intros H. rewrite <- H. apply sluggify_normal.
Qed.

(** X2. On texts whose characters all lie in U+0000..U+00FF, where lowering
    does not depend on the neighbouring characters, the normalisation works
    character by character: it distributes over concatenation, gives the
    same result before and after lowering the text or stripping its
    non-alphanumeric characters, and never lengthens the text. *)
Theorem sluggify_ignores_case_and_punctuation (a b : string) :
  sluggify (a ++ b)%string = (sluggify a ++ sluggify b)%string
  /\ sluggify (PyStr.lower a) = sluggify a
  /\ sluggify (PyStr.join_if PyStr.char_isalnum a) = sluggify a
  /\ String.length (sluggify a) <= String.length a.
Proof.
  unfold sluggify. repeat split.
  - now rewrite lower_append, join_if_append.
  - now rewrite lower_idempotent.
  - now rewrite lower_join_if, join_if_idempotent.
  - pose proof (join_if_length PyStr.char_isalnum (PyStr.lower a)) as H.
    rewrite lower_length in H. exact H.
Qed.

Lemma macro_loop_live_entries (sluggified : string) (items : macro_table)
    (text : string) :
  normal_key sluggified = true ->
  macro_loop sluggified (live_entries items) text
  = macro_loop sluggified items text.
Proof.
  intros Hn. revert text.
  induction items as [|[key value] rest IH]; intros text; [reflexivity|].
  unfold live_entries in *. cbn [filter fst].
  destruct (normal_key key) eqn:Hk.
  - cbn [macro_loop]. destruct (String.eqb sluggified key).
    + destruct value as [v|name raises]; [reflexivity|]. now rewrite IH.
    + apply IH.
  - cbn [macro_loop]. destruct (String.eqb_spec sluggified key) as [->|_].
    + rewrite Hn in Hk. discriminate.
    + apply IH.
Qed.

(** X3. An entry of the macro table whose key is not in normal form (it has
    an upper-case or a non-alphanumeric character) never fires: with or
    without raw mode, [process_typed] does the same on every text when such
    entries are removed from the table. *)
Theorem entries_with_unnormalised_keys_never_fire (raw : bool)
    (items : macro_table) (text : string) :
  process_typed {| RAW_MODE := raw; MACROS := live_entries items |} text
  = process_typed {| RAW_MODE := raw; MACROS := items |} text.
Proof.
  unfold process_typed. cbn [RAW_MODE MACROS].
  destruct raw; cbn [negb]; [reflexivity|].
  now rewrite macro_loop_live_entries by apply sluggify_normal.
Qed.

Lemma unique_key_value (items : macro_table) (key : string)
    (v1 v2 : macro_value) :
  NoDup (map fst items) ->
  In (key, v1) items -> In (key, v2) items -> v1 = v2.
Proof.
  induction items as [|[k v] rest IH]; intros Hnd H1 H2; [destruct H1|].
  cbn in Hnd. apply NoDup_cons_iff in Hnd as [Hnotin Hnd].
  destruct H1 as [H1|H1], H2 as [H2|H2].
  - congruence.
  - exfalso. apply Hnotin. injection H1 as -> _.
    now apply (in_map fst) in H2.
  - exfalso. apply Hnotin. injection H2 as -> _.
    now apply (in_map fst) in H1.
  - now apply IH.
Qed.

Lemma macro_loop_lookup (sluggified : string) (items : macro_table)
    (value : macro_value) (text : string) :
  NoDup (map fst items) ->
  In (sluggified, value) items ->
  macro_loop sluggified items text
  = match value with
    | Literal v =>
        ([print (MsgMatchedReplace sluggified sluggified v)], Returned v)
    | Callable name raises =>
        ([print (MsgMatchedFunction sluggified sluggified); call_action name],
         if raises then Raised (ActionError name) else Returned "")
    end.
Proof.
  revert text. induction items as [|[k v] rest IH]; intros text Hnd Hin;
    [destruct Hin|].
  pose proof Hnd as Hnd'. cbn in Hnd'.
  apply NoDup_cons_iff in Hnd' as [Hnotin Hrest].
  cbn [macro_loop]. destruct (String.eqb_spec sluggified k) as [<-|Hne].
  - assert (v = value) as ->.
    { apply (unique_key_value _ sluggified _ _ Hnd); [now left|exact Hin]. }
    destruct value as [lit|name raises]; [reflexivity|].
    rewrite macro_loop_no_match.
    + destruct raises; reflexivity.
    + intros key value Hin' ->. apply Hnotin. now apply (in_map fst) in Hin'.
  - destruct Hin as [Heq|Hin]; [congruence|]. now apply IH.
Qed.

Lemma macro_loop_same_when_matched (sluggified : string) (items : macro_table)
    (t1 t2 : string) :
  In sluggified (map fst items) ->
  macro_loop sluggified items t1 = macro_loop sluggified items t2.
Proof.
  revert t1 t2. induction items as [|[k v] rest IH]; intros t1 t2 Hin;
    [destruct Hin|].
  cbn [macro_loop]. destruct (String.eqb_spec sluggified k) as [Heq|Hne].
  - reflexivity.
  - destruct Hin as [Hin|Hin]; [cbn in Hin; congruence|]. now apply IH.
Qed.

(** X5. Two texts with the same normal form that some key of the table
    equals are dispatched alike: with raw mode off, [process_typed] performs
    the same effects and ends the same way on both, so a macro fires whatever
    the capitalisation, spacing and punctuation of the transcript. *)
Theorem texts_with_one_normal_form_dispatch_alike (items : macro_table)
    (t1 t2 : string) :
  sluggify t1 = sluggify t2 ->
  In (sluggify t1) (map fst items) ->
  process_typed {| RAW_MODE := false; MACROS := items |} t1
  = process_typed {| RAW_MODE := false; MACROS := items |} t2.
Proof.
  intros Heq Hin. unfold process_typed. cbn [RAW_MODE MACROS negb].
  rewrite <- Heq.
  now rewrite (macro_loop_same_when_matched _ _ t1 t2 Hin).
Qed.

(** ** Further properties of the finalize path *)

Lemma macro_loop_outcome (sluggified : string) (items : macro_table)
    (text : string) :
  forallb is_dispatch (effects_of (macro_loop sluggified items text)) = true
  /\ typed_texts (effects_of (macro_loop sluggified items text)) = []
  /\ ((exists t, outcome_of (macro_loop sluggified items text) = Returned t)
      \/ exists name,
           outcome_of (macro_loop sluggified items text)
           = Raised (ActionError name)).
Proof.
  revert text.
  induction items as [|[key value] rest IH]; intros text; cbn [macro_loop].
  - repeat split. left. now exists text.
  - destruct (String.eqb sluggified key); [|apply IH].
    destruct value as [v|name raises].
    + repeat split. left. now exists v.
    + destruct raises.
      * repeat split. right. now exists name.
      * destruct (IH "") as (Hd & Ht & Ho).
        destruct (macro_loop sluggified rest "") as [es r]. cbn in *.
        repeat split; assumption.
Qed.

Lemma process_typed_outcome (g : globals) (text : string) :
  forallb is_dispatch (effects_of (process_typed g text)) = true
  /\ (outcome_of (process_typed g text) = Returned tt
      \/ (typed_texts (effects_of (process_typed g text)) = []
          /\ exists name,
               outcome_of (process_typed g text) = Raised (ActionError name))).
Proof.
  unfold process_typed. destruct (RAW_MODE g); cbn [negb].
  - cbn. destruct (PyStr.truthy text); cbn; split; auto.
  - destruct (macro_loop_outcome (sluggify text) (MACROS g) text)
      as (Hd & Ht & [[t Ho]|[name Ho]]);
      destruct (macro_loop (sluggify text) (MACROS g) text) as [es r];
      cbn in *; subst r; cbn.
    + destruct (PyStr.truthy t); cbn.
      * rewrite forallb_app, Hd. split; [reflexivity|now left].
      * rewrite app_nil_r. split; [assumption|now left].
    + split; [assumption|]. right. split; [assumption|]. now exists name.
Qed.

Lemma dispatch_only_no_request (es : list effect) :
  forallb is_dispatch es = true ->
  requests_issued es = [] /\ error_reports es = [].
Proof.
  induction es as [|e rest IH]; cbn; [split; reflexivity|].
  intros H. apply andb_true_iff in H as [He Hrest].
  destruct (IH Hrest) as [Hr Hx].
  destruct e as [m| | | | | | | | | |]; cbn in *; try discriminate;
    try (split; assumption).
  destruct m; cbn in *; try discriminate; split; assumption.
Qed.

(** What the request-and-type path does, reply by reply. *)
Lemma transcribe_shape (g : globals) (backend : backend_reply) :
  with_handlers (transcribe_and_type g backend)
  = requests_post (SERVER_HOST ++ "/transcribe")%string recording_path
      :: match backend with
         | Unreachable => [print MsgErrorSendingRequest]
         | Reply r =>
             if error_status r then [print MsgErrorSendingRequest]
             else match body r with
                  | NoTextField => [print MsgErrorProcessingTranscript]
                  | TextField t =>
                      if PyStr.truthy t
                      then print (MsgTranscript t)
                             :: effects_of (process_typed g t)
                             ++ match outcome_of (process_typed g t) with
                                | Returned _ => []
                                | Raised _ =>
                                    [print MsgErrorProcessingTranscript]
                                end
                      else []
                  end
         end.
Proof.
  destruct backend as [|[status b]]; [reflexivity|].
  destruct status; [reflexivity|].
  destruct b as [|t]; [reflexivity|].
  destruct (PyStr.truthy t) eqn:Ht.
  - rewrite (transcribe_text g t Ht). cbn [error_status body].
    destruct (process_typed_outcome g t) as [_ [Ho|[_ [name Ho]]]];
      destruct (process_typed g t) as [es r]; cbn in *; subst r; cbn;
      rewrite Ht.
    + now rewrite app_nil_r.
    + reflexivity.
  - destruct t; [reflexivity|discriminate].
Qed.

Section FinalizeFacts.

Variable sample : Type.
Variable quantize : sample -> Z.

Lemma requests_issued_app (a b : list effect) :
  requests_issued (a ++ b) = requests_issued a ++ requests_issued b.
Proof. apply flat_map_app. Qed.

Lemma transcribe_requests_once (g : globals) (backend : backend_reply) :
  requests_issued (with_handlers (transcribe_and_type g backend))
  = [recording_path].
Proof.
  rewrite transcribe_shape. cbn. f_equal.
  destruct backend as [|[status b]]; [reflexivity|]. cbn.
  destruct status; [reflexivity|].
  destruct b as [|t]; [reflexivity|].
  destruct (PyStr.truthy t); [|reflexivity]. cbn.
  rewrite requests_issued_app.
  destruct (process_typed_outcome g t) as [Hd _].
  destruct (dispatch_only_no_request _ Hd) as [-> _].
  destruct (outcome_of (process_typed g t)); reflexivity.
Qed.

Lemma error_reports_app (a b : list effect) :
  error_reports (a ++ b) = error_reports a ++ error_reports b.
Proof. apply filter_app. Qed.

Lemma typed_texts_app (a b : list effect) :
  typed_texts (a ++ b) = typed_texts a ++ typed_texts b.
Proof. apply flat_map_app. Qed.

End FinalizeFacts.

(** ** The progress tasks and the key flags along a run *)

Lemma open_tasks_app (open : list TaskID) (a b : list effect) :
  open_tasks open (a ++ b) = open_tasks (open_tasks open a) b.
Proof. apply fold_left_app. Qed.

Lemma stale_task_calls_app (open : list TaskID) (a b : list effect) :
  stale_task_calls open (a ++ b)
  = stale_task_calls open a ++ stale_task_calls (open_tasks open a) b.
Proof.
  revert open. induction a as [|e rest IH]; intros open; [reflexivity|].
  cbn [app stale_task_calls open_tasks fold_left]. rewrite IH.
  unfold open_tasks. now rewrite app_assoc.
Qed.

Lemma text_path_tasks (open : list TaskID) (es : list effect) :
  forallb is_text_path es = true ->
  open_tasks open es = open /\ stale_task_calls open es = [].
Proof.
  induction es as [|e rest IH]; cbn; [split; reflexivity|].
  intros H. apply andb_true_iff in H as [He Hrest].
  destruct (IH Hrest) as [Ho Hs].
  destruct e; cbn in *; try discriminate; split; assumption.
Qed.

Section TaskFacts.

Variable sample : Type.
Variable quantize : sample -> Z.

Lemma release_tasks (g : globals) (backend : backend_reply)
    (st : state sample) (open : list TaskID) :
  handle_consistent open st ->
  let t := task_index st in
  open_tasks open (snd (on_release quantize g RECORD_KEY backend st))
  = match audio_data st with
    | [] => [t]
    | _ :: _ => []
    end.
Proof.
  intros Hc. cbv zeta. rewrite on_release_record_key.
  assert (Hpro : open_tasks open (release_prologue st) = [task_index st]).
  { unfold handle_consistent in Hc. unfold release_prologue.
    destruct (progress_current st) as [t|].
    - destruct Hc as [->|[-> _]]; cbn; [rewrite Nat.eqb_refl|]; reflexivity.
    - destruct Hc as [-> _]. reflexivity. }
  destruct (audio_data st) as [|f rest].
  - cbn [snd]. rewrite open_tasks_app, Hpro. reflexivity.
  - destruct (buffered_samples st <? MIN_SAMPLES_FOR_TRANSCRIBE)%Z; cbn [snd];
      rewrite !open_tasks_app, Hpro.
    + cbn. now rewrite Nat.eqb_refl.
    + destruct (text_path_tasks
                  (open_tasks [task_index st]
                     [wavfile_write recording_path sample_rate
                        (map quantize (List.concat (f :: rest)))])
                  _ (transcribe_text_path g backend)) as [-> _].
      cbn. now rewrite Nat.eqb_refl.
Qed.

Lemma step_handle_consistent (g : globals) (ev : event sample)
    (st : state sample) (open : list TaskID) :
  handle_consistent open st ->
  handle_consistent (open_tasks open (snd (step quantize g ev st)))
                    (fst (step quantize g ev st)).
Proof.
  intros Hc. destruct ev as [key|key backend|indata status]; cbn [step].
  - destruct (held_after_press key st) eqn:Hh.
    + rewrite (on_press_engaged _ key st Hh). cbn [fst snd].
      unfold handle_consistent in *. cbn [progress_current].
      destruct (progress_current st) as [t|].
      * destruct Hc as [->|[-> _]]; cbn; [rewrite Nat.eqb_refl|]; now left.
      * destruct Hc as [-> _]. now left.
    + rewrite (on_press_not_engaged _ key st Hh). exact Hc.
  - destruct (Key_eqb key RECORD_KEY) eqn:Hk.
    + assert (key = RECORD_KEY) as ->.
      { destruct key; cbn in Hk; try discriminate; reflexivity. }
      rewrite (release_tasks g backend st open Hc).
      rewrite on_release_record_key. unfold handle_consistent.
      destruct (audio_data st) as [|f rest]; [now left|].
      destruct (buffered_samples st <? MIN_SAMPLES_FOR_TRANSCRIBE)%Z; cbn.
      * right. split; reflexivity.
      * split; reflexivity.
    + rewrite on_release_other_key by assumption. cbn [fst snd open_tasks fold_left].
      destruct (Key_eqb key ctrl_r); exact Hc.
  - unfold callback.
    destruct (recording st), status; cbn [fst snd]; exact Hc.
Qed.

Lemma run_handle_consistent (g : globals) (evs : list (event sample))
    (st : state sample) (open : list TaskID) :
  handle_consistent open st ->
  handle_consistent (open_tasks open (snd (run quantize g evs st)))
                    (fst (run quantize g evs st)).
Proof.
  revert st open. induction evs as [|ev rest IH]; intros st open Hc.
  - exact Hc.
  - rewrite run_cons. cbn [fst snd]. rewrite open_tasks_app.
    apply IH. now apply step_handle_consistent.
Qed.

(** X9. After a clip that is not empty but too short, the task handle still
    names the "Transcribing..." task that the release has already removed:
    that task is not open, and the next press that engages the chord calls
    [remove_task] on it a second time. *)
Theorem short_clip_leaves_a_stale_task_handle (g : globals)
    (evs : list (event sample)) (backend : backend_reply) (key : Key) :
  let st := fst (run quantize g evs initial) in
  let open := open_tasks [] (snd (run quantize g evs initial)) in
  let released := on_release quantize g RECORD_KEY backend st in
  audio_data st <> [] ->
  (buffered_samples st < MIN_SAMPLES_FOR_TRANSCRIBE)%Z ->
  held_after_press key (fst released) = true ->
  progress_current (fst released) = Some (task_index st)
  /\ In (progress_remove_task (Some (task_index st))) (snd released)
  /\ open_tasks open (snd released) = []
  /\ stale_task_calls (open_tasks open (snd released))
       (snd (on_press key (fst released)))
     = [progress_remove_task (Some (task_index st))].
Proof.
  cbv zeta. intros Hne Hshort Hheld.
  set (st := fst (run quantize g evs initial)) in *.
  assert (Hc : handle_consistent
                 (open_tasks [] (snd (run quantize g evs initial))) st).
  { apply run_handle_consistent. split; reflexivity. }
  rewrite (release_tasks g backend st _ Hc).
  rewrite (on_press_engaged _ key _ Hheld).
  rewrite on_release_record_key in *.
  destruct (audio_data st) as [|f rest]; [congruence|].
  destruct (Z.ltb_spec (buffered_samples st) MIN_SAMPLES_FOR_TRANSCRIBE)
    as [_|Hl]; [|lia].
  cbn [fst snd progress_current task_index].
  split; [reflexivity|]. split; [|split; [reflexivity|]].
  - apply in_or_app. right. cbn. auto.
  - cbn. rewrite Nat.eqb_refl. reflexivity.
Qed.

Lemma release_long_is_clean (g : globals) (backend : backend_reply)
    (st : state sample) (t : TaskID) :
  progress_current st = Some t ->
  (MIN_SAMPLES_FOR_TRANSCRIBE <= buffered_samples st)%Z ->
  stale_task_calls [t] (snd (on_release quantize g RECORD_KEY backend st)) = []
  /\ open_tasks [t] (snd (on_release quantize g RECORD_KEY backend st)) = []
  /\ progress_current (fst (on_release quantize g RECORD_KEY backend st)) = None.
Proof.
  intros Hpc Hlong. rewrite on_release_record_key.
  destruct (audio_data st) as [|f rest] eqn:Ha.
  { exfalso. unfold buffered_samples in Hlong. rewrite Ha in Hlong.
    cbn in Hlong. unfold MIN_SAMPLES_FOR_TRANSCRIBE in Hlong. lia. }
  destruct (Z.ltb_spec (buffered_samples st) MIN_SAMPLES_FOR_TRANSCRIBE)
    as [Hs|_]; [lia|].
  cbn [fst snd progress_current]. unfold release_prologue. rewrite Hpc.
  rewrite !stale_task_calls_app, !open_tasks_app.
  cbn [app stale_task_calls is_stale_call names_open_task existsb open_tasks
       fold_left track filter]. rewrite !Nat.eqb_refl.
  cbn [app stale_task_calls is_stale_call names_open_task existsb open_tasks
       fold_left track filter negb orb].
  destruct (text_path_tasks [task_index st] _ (transcribe_text_path g backend))
    as [Ho Hs].
  unfold open_tasks in *. rewrite Ho, Hs.
  cbn. rewrite !Nat.eqb_refl. cbn. repeat split.
Qed.

(** X10. A dictation of at least 8000 samples that starts with the task
    handle cleared makes no call on a task that is not open, ends with no
    task open, the handle cleared, the keys released and recording off: so
    any number of such dictations in a row stays free of stale calls. *)
Theorem long_dictation_is_free_of_stale_calls (g : globals)
    (indata : list sample) (backend : backend_reply) (st : state sample) :
  progress_current st = None ->
  (MIN_SAMPLES_FOR_TRANSCRIBE <= Z.of_nat (List.length indata))%Z ->
  let r := run quantize g (dictation indata backend) st in
  stale_task_calls [] (snd r) = []
  /\ open_tasks [] (snd r) = []
  /\ progress_current (fst r) = None
  /\ recording (fst r) = false
  /\ pressed_ctrl (fst r) = false
  /\ pressed_shift (fst r) = false.
Proof.
  intros Hpc Hlong. cbv zeta. unfold dictation.
  rewrite !run_cons. cbn [run step fst snd].
  rewrite (on_release_other_key _ quantize g ctrl_r) by reflexivity.
  cbn [Key_eqb fst snd]. rewrite !app_nil_r.
  set (s2 := fst (on_press shift_r (fst (on_press ctrl_r st)))).
  set (e12 := snd (on_press ctrl_r st) ++ snd (on_press shift_r (fst (on_press ctrl_r st)))).
  assert (H12 : exists t,
             s2 = mkState true [] true true (Some t) (S t)
             /\ stale_task_calls [] e12 = []
             /\ open_tasks [] e12 = [t]).
  { unfold s2, e12. clear s2 e12. destruct st as [rec audio pc ps cur idx].
    cbn in Hpc. subst cur. destruct ps.
    - exists (S idx). split; [reflexivity|].
      split; do 3 (cbn -[Nat.eqb]; rewrite ?Nat.eqb_refl); reflexivity.
    - exists idx. split; [reflexivity|].
      split; do 3 (cbn -[Nat.eqb]; rewrite ?Nat.eqb_refl); reflexivity. }
  destruct H12 as (t & Hs2 & Hst & Hop).
  set (s3 := fst (callback indata false s2)).
  assert (Hs3 : s3 = mkState true [indata] true true (Some t) (S t)).
  { unfold s3. rewrite Hs2. reflexivity. }
  assert (Hcb : snd (callback indata false s2) = []).
  { rewrite Hs2. reflexivity. }
  rewrite Hcb. cbn [app].
  change (on_release quantize g shift_r) with (on_release quantize g RECORD_KEY).
  assert (Hbuf : (MIN_SAMPLES_FOR_TRANSCRIBE <= buffered_samples s3)%Z).
  { rewrite Hs3. unfold buffered_samples. cbn. now rewrite app_nil_r. }
  destruct (release_long_is_clean g backend s3 t) as (Hr1 & Hr2 & Hr3);
    [now rewrite Hs3|exact Hbuf|].
  rewrite app_assoc. fold e12.
  rewrite stale_task_calls_app, open_tasks_app, Hst, Hop, Hr1, Hr2.
  rewrite on_release_record_key.
  destruct (audio_data s3) as [|f rest] eqn:Ha; [rewrite Hs3 in Ha; discriminate|].
  destruct (Z.ltb_spec (buffered_samples s3) MIN_SAMPLES_FOR_TRANSCRIBE)
    as [Hs|_]; [lia|].
  rewrite Hs3. cbn. repeat split.
Qed.

Lemma on_press_flags (key : Key) (st : state sample) :
  pressed_ctrl (fst (on_press key st))
  = (if Key_eqb key ctrl_r then true else pressed_ctrl st)
  /\ pressed_shift (fst (on_press key st))
     = (if Key_eqb key shift_r then true else pressed_shift st).
Proof.
  unfold on_press.
  destruct key, st as [rec audio [] [] cur idx]; cbn; split; reflexivity.
Qed.

Lemma on_release_flags (g : globals) (key : Key) (backend : backend_reply)
    (st : state sample) :
  pressed_ctrl (fst (on_release quantize g key backend st))
  = (if Key_eqb key ctrl_r then false else pressed_ctrl st)
  /\ pressed_shift (fst (on_release quantize g key backend st))
     = (if Key_eqb key shift_r then false else pressed_shift st).
Proof.
  destruct key as [| |code].
  - rewrite on_release_other_key by reflexivity. split; reflexivity.
  - change shift_r with RECORD_KEY at 1 3. rewrite on_release_record_key.
    destruct (audio_data st) as [|f rest];
      [|destruct (buffered_samples st <? MIN_SAMPLES_FOR_TRANSCRIBE)%Z];
      split; reflexivity.
  - rewrite on_release_other_key by reflexivity. split; reflexivity.
Qed.

(** X11. After any run, each of the two key flags is the kind of the last
    event that named its key (pressed or released), and is what it was
    before the run if no event named it: a flag is never left set by a
    release, cleared by a press, or touched by another key or by audio. *)
Theorem key_flags_follow_the_last_event (g : globals)
    (evs : list (event sample)) (st : state sample) :
  pressed_ctrl (fst (run quantize g evs st))
  = held_after ctrl_r evs (pressed_ctrl st)
  /\ pressed_shift (fst (run quantize g evs st))
     = held_after shift_r evs (pressed_shift st).
Proof.
  revert st. induction evs as [|ev rest IH]; intros st; [split; reflexivity|].
  rewrite run_cons. cbn [fst].
  destruct (IH (fst (step quantize g ev st))) as [-> ->].
  destruct ev as [key|key backend|indata status]; cbn [step held_after].
  - destruct (on_press_flags key st) as [-> ->]. split; reflexivity.
  - destruct (on_release_flags g key backend st) as [-> ->]. split; reflexivity.
  - unfold callback. destruct (recording st); split; reflexivity.
Qed.

End TaskFacts.

(** ** Startup and shutdown *)

Lemma wait_for_server_probe_failed (reply : health_reply) (rest : wait_script) :
  health_ok reply = false ->
  wait_for_server (Probe reply rest)
  = (requests_get (SERVER_HOST ++ "/health")%string :: time_sleep
       :: fst (wait_for_server rest),
     snd (wait_for_server rest)).
Proof.
  intros H. cbn [wait_for_server]. rewrite H.
  destruct (wait_for_server rest); reflexivity.
Qed.

Lemma wait_for_server_counts (script : wait_script) :
  terminations (fst (wait_for_server script)) = 0
  /\ captured (fst (wait_for_server script)) = []
  /\ match snd (wait_for_server script) with
     | WaitTrue =>
         probes (fst (wait_for_server script))
         = S (sleeps (fst (wait_for_server script)))
     | WaitTimeoutError =>
         probes (fst (wait_for_server script))
         = sleeps (fst (wait_for_server script))
     | WaitKeyboardInterrupt =>
         probes (fst (wait_for_server script))
         = sleeps (fst (wait_for_server script))
         \/ probes (fst (wait_for_server script))
            = S (sleeps (fst (wait_for_server script)))
     end.
Proof.
  induction script as [reply rest IH| | |].
  - destruct (health_ok reply) eqn:Hok.
    + cbn [wait_for_server]. rewrite Hok. cbn. repeat split.
    + rewrite (wait_for_server_probe_failed reply rest Hok). cbn [fst snd].
      destruct IH as (Ht & Hc & Hp). split; [exact Ht|]. split; [exact Hc|].
      unfold probes, sleeps in *. cbn.
      destruct (snd (wait_for_server rest)); [lia|lia|].
      destruct Hp as [Hp|Hp]; [left|right]; lia.
  - cbn. repeat split.
  - cbn. repeat split. now left.
  - cbn. repeat split. now right.
Qed.

(** X12. [wait_for_server] returns [True] exactly when, after any number of
    failed probes met in time, a probe met in time is answered with status
    200; a connection failure and every other status, other 2xx codes
    included, only cost one sleep and a further probe.  It returns right
    after the successful probe without sleeping, and when it raises
    [TimeoutError] every probe it made was followed by a sleep. *)
Theorem wait_for_server_returns_on_first_200 (script : wait_script) :
  (snd (wait_for_server script) = WaitTrue
   <-> exists failed reply rest,
         script = fold_right Probe (Probe reply rest) failed
         /\ forallb (fun r => negb (health_ok r)) failed = true
         /\ health_ok reply = true)
  /\ match snd (wait_for_server script) with
     | WaitTrue =>
         probes (fst (wait_for_server script))
         = S (sleeps (fst (wait_for_server script)))
     | WaitTimeoutError =>
         probes (fst (wait_for_server script))
         = sleeps (fst (wait_for_server script))
     | WaitKeyboardInterrupt =>
         probes (fst (wait_for_server script))
         = sleeps (fst (wait_for_server script))
         \/ probes (fst (wait_for_server script))
            = S (sleeps (fst (wait_for_server script)))
     end.
Proof.
  split; [|apply wait_for_server_counts].
  induction script as [reply rest IH| | |].
  - destruct (health_ok reply) eqn:Hok.
    + cbn [wait_for_server]. rewrite Hok. cbn [snd]. split; [intros _|reflexivity].
      exists [], reply, rest. repeat split. exact Hok.
    + rewrite (wait_for_server_probe_failed reply rest Hok). cbn [snd].
      rewrite IH. split.
      * intros (failed & r & tail & -> & Hf & Hr).
        exists (reply :: failed), r, tail. cbn. rewrite Hok, Hf.
        repeat split. exact Hr.
      * intros (failed & r & tail & Heq & Hf & Hr).
        destruct failed as [|f failed]; cbn in Heq.
        -- injection Heq as -> ->. congruence.
        -- injection Heq as -> ->. cbn in Hf.
           apply andb_true_iff in Hf as [_ Hf].
           exists failed, r, tail. repeat split; assumption.
  - cbn. split; [discriminate|].
    intros (failed & r & tail & Heq & _). destruct failed; discriminate.
  - cbn. split; [discriminate|].
    intros (failed & r & tail & Heq & _). destruct failed; discriminate.
  - cbn. split; [discriminate|].
    intros (failed & r & tail & Heq & _). destruct failed; discriminate.
Qed.

Lemma ends_with_cons {A} (e x : A) (l : list A) :
  (exists front, l = front ++ [x]) -> exists front, e :: l = front ++ [x].
Proof. intros [front ->]. now exists (e :: front). Qed.

Lemma ends_with_app {A} (x : A) (a l : list A) :
  (exists front, l = front ++ [x]) -> exists front, a ++ l = front ++ [x].
Proof. intros [front ->]. exists (a ++ front). now rewrite app_assoc. Qed.

Lemma ends_with_last {A} (x : A) : exists front, [x] = front ++ [x].
Proof. now exists []. Qed.

Section MainFacts.

Variable sample : Type.
Variable quantize : sample -> Z.

Lemma terminations_app (a b : list main_effect) :
  terminations (a ++ b) = terminations a + terminations b.
Proof. unfold terminations. now rewrite filter_app, length_app. Qed.

Lemma captured_app (a b : list main_effect) :
  captured (a ++ b) = captured a ++ captured b.
Proof. apply flat_map_app. Qed.

Lemma terminations_capture (es : list effect) :
  terminations (map capture es) = 0.
Proof. induction es as [|e rest IH]; [reflexivity|exact IH]. Qed.

Lemma captured_capture (es : list effect) : captured (map capture es) = es.
Proof.
  induction es as [|e rest IH]; cbn; [reflexivity|]. f_equal. exact IH.
Qed.

(** X13. Whatever happens, [main] starts the server process first and ends
    by terminating it: the last call of every execution is
    [server_process.terminate()], made once, or twice when the wait times
    out and [main] leaves through [sys.exit]. *)
Theorem main_always_terminates_the_server (g : globals)
    (env : main_env sample) :
  let es := fst (main quantize g env) in
  let out := snd (main quantize g env) in
  (exists rest,
     es = subprocess_Popen
            ["python"; os_path_join (module_dir env) "server/server.py"]
          :: rest)
  /\ (exists front, es = front ++ [server_terminate])
  /\ terminations es = match out with SystemExit _ => 2 | _ => 1 end.
Proof.
  cbv zeta. unfold main, start_whisper_server.
  destruct (wait_for_server_counts (startup env)) as (Ht & _ & _).
  destruct (wait_for_server (startup env)) as [waited r]. cbn [fst] in Ht.
  destruct r; [destruct (stream_opens env)| |]; cbn [fst snd].
  - split; [eexists; reflexivity|]. split.
    + cbn [app].
      repeat (apply ends_with_last || apply ends_with_cons
              || apply ends_with_app).
    + cbn [app]. unfold terminations in *. cbn [filter Datatypes.length].
      rewrite !filter_app, !length_app, Ht.
      fold (terminations (map capture
              (snd (run quantize g (delivered env) initial)))).
      cbn [filter Datatypes.length]. rewrite filter_app, length_app.
      fold (terminations (map capture
              (snd (run quantize g (delivered env) initial)))).
      rewrite terminations_capture. reflexivity.
  - split; [eexists; reflexivity|]. split.
    + cbn [app].
      repeat (apply ends_with_last || apply ends_with_cons
              || apply ends_with_app).
    + cbn [app]. unfold terminations in *. cbn [filter Datatypes.length].
      rewrite !filter_app, !length_app, Ht. reflexivity.
  - split; [eexists; reflexivity|]. split.
    + cbn [app].
      repeat (apply ends_with_last || apply ends_with_cons
              || apply ends_with_app).
    + cbn [app]. unfold terminations in *. cbn [filter Datatypes.length].
      rewrite !filter_app, !length_app, Ht. reflexivity.
  - split; [eexists; reflexivity|]. split.
    + cbn [app].
      repeat (apply ends_with_last || apply ends_with_cons
              || apply ends_with_app).
    + cbn [app]. unfold terminations in *. cbn [filter Datatypes.length].
      rewrite !filter_app, !length_app, Ht. reflexivity.
Qed.

End MainFacts.

(** ** The buffer and the reachable states *)

Section BufferFacts.

Variable sample : Type.
Variable quantize : sample -> Z.

(** X15. The audio buffer changes in two ways only: a press that engages
    the chord empties it, and a block delivered while recording is on is
    appended to it.  No path of the release handler alters it, so a clip
    stays buffered after its release until the next engagement. *)
Theorem buffer_changes_only_on_engagement_or_block (g : globals)
    (ev : event sample) (st : state sample) :
  audio_data (fst (step quantize g ev st))
  = match ev with
    | KeyPress key => if held_after_press key st then [] else audio_data st
    | KeyRelease _ _ => audio_data st
    | AudioBlock indata _ =>
        if recording st then audio_data st ++ [indata] else audio_data st
    end.
Proof.
  destruct ev as [key|key backend|indata status]; cbn [step].
  - destruct (held_after_press key st) eqn:H.
    + now rewrite (on_press_engaged _ key st H).
    + now rewrite (on_press_not_engaged _ key st H).
  - apply on_release_audio.
  - unfold callback. destruct (recording st); reflexivity.
Qed.

Lemma step_keeps_handle_fresh (g : globals) (ev : event sample)
    (st : state sample) :
  (forall t, progress_current st = Some t -> t < task_index st) ->
  forall t, progress_current (fst (step quantize g ev st)) = Some t ->
            t < task_index (fst (step quantize g ev st)).
Proof.
  intros Hinv t. destruct ev as [key|key backend|indata status]; cbn [step].
  - destruct (held_after_press key st) eqn:H.
    + rewrite (on_press_engaged _ key st H). cbn. intros [= <-]. lia.
    + rewrite (on_press_not_engaged _ key st H). cbn. apply Hinv.
  - destruct (Key_eqb key RECORD_KEY) eqn:Hk.
    + assert (key = RECORD_KEY) as ->.
      { destruct key; cbn in Hk; try discriminate; reflexivity. }
      rewrite on_release_record_key.
      destruct (audio_data st) as [|f rest];
        [|destruct (buffered_samples st <? MIN_SAMPLES_FOR_TRANSCRIBE)%Z];
        cbn; try discriminate; intros [= <-]; lia.
    + rewrite on_release_other_key by assumption. cbn [fst].
      destruct (Key_eqb key ctrl_r); apply Hinv.
  - unfold callback. destruct (recording st); cbn; apply Hinv.
Qed.

(** X16. In every state reachable from the initial one, recording is on
    only while the record key [shift_r] is recorded as held, and the task
    handle, when set, names a task id that the progress display has already
    handed out (it is below the next id). *)
Theorem reachable_states_are_well_formed (g : globals)
    (evs : list (event sample)) :
  let st := fst (run quantize g evs initial) in
  (recording st = true -> pressed_shift st = true)
  /\ (forall t, progress_current st = Some t -> t < task_index st).
Proof.
  cbv zeta. split.
  - apply run_keeps_shift_held_while_recording. discriminate.
  - assert (H : forall (l : list (event sample)) (s : state sample),
               (forall t, progress_current s = Some t -> t < task_index s) ->
               forall t, progress_current (fst (run quantize g l s)) = Some t ->
                         t < task_index (fst (run quantize g l s))).
    { induction l as [|ev rest IH]; intros s Hs; [exact Hs|].
      rewrite run_cons. cbn [fst]. apply IH.
      now apply step_keeps_handle_fresh. }
    apply H. discriminate.
Qed.

End BufferFacts.

(** ** Further concrete runs *)

Lemma sluggify_reaches_normal_form_witness :
  normal_key "wake" = true /\ sluggify "wake" = "wake".
Proof.
  split; [reflexivity|].
  apply (proj1 (proj2 (proj2 (sluggify_reaches_normal_form "wake")))).
  reflexivity.
Defined.

Lemma texts_with_one_normal_form_witness :
  sluggify "Wake" = sluggify "wake!"
  /\ In (sluggify "Wake") (map fst (example_macros false))
  /\ process_typed {| RAW_MODE := false; MACROS := example_macros false |} "Wake"
     = process_typed {| RAW_MODE := false; MACROS := example_macros false |}
         "wake!".
Proof.
  assert (Hin : In (sluggify "Wake") (map fst (example_macros false))).
  { left. reflexivity. }
  split; [reflexivity|]. split; [exact Hin|].
  exact (texts_with_one_normal_form_dispatch_alike (example_macros false)
           "Wake" "wake!" eq_refl Hin).
Defined.

Lemma short_clip_stale_handle_witness :
  let g := example_globals false in
  let evs : list (event Z) :=
    [KeyPress ctrl_r; KeyPress shift_r; AudioBlock [1; 2; 3]%Z false] in
  let st := fst (run pcm_identity g evs initial) in
  let released := on_release pcm_identity g RECORD_KEY Unreachable st in
  audio_data st <> []
  /\ (buffered_samples st < MIN_SAMPLES_FOR_TRANSCRIBE)%Z
  /\ held_after_press shift_r (fst released) = true
  /\ stale_task_calls
       (open_tasks (open_tasks [] (snd (run pcm_identity g evs initial)))
          (snd released))
       (snd (on_press shift_r (fst released)))
     = [progress_remove_task (Some (task_index st))].
Proof.
  cbv zeta.
  assert (H1 : audio_data
                 (fst (run pcm_identity (example_globals false)
                         [KeyPress ctrl_r; KeyPress shift_r;
                          AudioBlock [1; 2; 3]%Z false] initial)) <> []).
  { cbn. discriminate. }
  split; [exact H1|]. split; [reflexivity|]. split; [reflexivity|].
  exact (proj2 (proj2 (proj2
           (short_clip_leaves_a_stale_task_handle Z pcm_identity
              (example_globals false)
              [KeyPress ctrl_r; KeyPress shift_r;
               AudioBlock [1; 2; 3]%Z false]
              Unreachable shift_r H1 eq_refl eq_refl)))).
Defined.

Lemma long_dictation_witness :
  progress_current (@initial Z) = None
  /\ (MIN_SAMPLES_FOR_TRANSCRIBE <= Z.of_nat (List.length (block 0 8000)))%Z
  /\ stale_task_calls []
       (snd (run pcm_identity (example_globals false)
               (dictation (block 0 8000) Unreachable) initial))
     = [].
Proof.
  assert (H : (MIN_SAMPLES_FOR_TRANSCRIBE
               <= Z.of_nat (List.length (block 0 8000)))%Z).
  { apply Z.leb_le. vm_compute. reflexivity. }
  split; [reflexivity|]. split; [exact H|].
  exact (proj1 (long_dictation_is_free_of_stale_calls Z pcm_identity
                  (example_globals false) (block 0 8000) Unreachable initial
                  eq_refl H)).
Defined.

Lemma wait_for_server_witness :
  let script :=
    Probe HealthUnreachable
      (Probe (HealthStatus 503) (Probe (HealthStatus 200) DeadlinePassed)) in
  (exists failed reply rest,
     script = fold_right Probe (Probe reply rest) failed
     /\ forallb (fun r => negb (health_ok r)) failed = true
     /\ health_ok reply = true)
  /\ snd (wait_for_server script) = WaitTrue.
Proof.
  cbv zeta.
  assert (H : exists failed reply rest,
            Probe HealthUnreachable
              (Probe (HealthStatus 503)
                 (Probe (HealthStatus 200) DeadlinePassed))
            = fold_right Probe (Probe reply rest) failed
            /\ forallb (fun r => negb (health_ok r)) failed = true
            /\ health_ok reply = true).
  { exists [HealthUnreachable; HealthStatus 503], (HealthStatus 200),
      DeadlinePassed. repeat split. }
  split; [exact H|].
  exact (proj2 (proj1 (wait_for_server_returns_on_first_200 _)) H).
Defined.

Lemma reachable_states_witness :
  let evs : list (event Z) := [KeyPress ctrl_r; KeyPress shift_r] in
  recording (fst (run pcm_identity (example_globals false) evs initial)) = true
  /\ pressed_shift (fst (run pcm_identity (example_globals false) evs initial))
     = true.
Proof.
  cbv zeta. split; [reflexivity|].
  apply (proj1 (reachable_states_are_well_formed Z pcm_identity
                  (example_globals false)
                  [KeyPress ctrl_r; KeyPress shift_r])).
  reflexivity.
Defined.

(** ** Runs without stale progress calls *)

(** X4. For a table with distinct keys, as a dict has, what [process_typed]
    does with raw mode off is fixed by the entry stored under the normalised
    text, wherever it stands in the table: a replacement without markup is
    typed (unless it is empty), a function is called and nothing is typed,
    and if the function raises the exception leaves [process_typed]. *)
Theorem process_typed_is_a_dict_lookup (items : macro_table) (text : string)
    (value : macro_value) :
  NoDup (map fst items) ->
  In (sluggify text, value) items ->
  match value with
  | Literal v => markup_free v = true
  | Callable _ _ => True
  end ->
  process_typed {| RAW_MODE := false; MACROS := items |} text
  = match value with
    | Literal v =>
        (print (MsgMatchedReplace (sluggify text) (sluggify text) v)
           :: (if PyStr.truthy v then [keyboard_type v] else []),
         Returned tt)
    | Callable name raises =>
        ([print (MsgMatchedFunction (sluggify text) (sluggify text));
          call_action name],
         if raises then Raised (ActionError name) else Returned tt)
    end.
Proof.
  intros Hnd Hin _. unfold process_typed. cbn [RAW_MODE MACROS negb].
  rewrite (macro_loop_lookup _ _ value text Hnd Hin).
  destruct value as [v|name []]; try reflexivity.
  cbn. destruct (PyStr.truthy v); reflexivity.
Qed.

Section ValidRuns.

Variable sample : Type.
Variable quantize : sample -> Z.

Lemma run_snoc (g : globals) (evs : list (event sample)) (ev : event sample)
    (st : state sample) :
  run quantize g (evs ++ [ev]) st
  = (fst (step quantize g ev (fst (run quantize g evs st))),
     snd (run quantize g evs st)
       ++ snd (step quantize g ev (fst (run quantize g evs st)))).
Proof.
  rewrite run_app, run_cons. cbn [run fst snd]. now rewrite app_nil_r.
Qed.

Lemma chord_engaged_count_app (a b : list effect) :
  chord_engaged_count (a ++ b)
  = chord_engaged_count a + chord_engaged_count b.
Proof. unfold chord_engaged_count. now rewrite filter_app, length_app. Qed.

Lemma on_press_engaged_count (key : Key) (st : state sample) :
  chord_engaged_count (snd (on_press key st))
  = if held_after_press key st then 1 else 0.
Proof.
  destruct (held_after_press key st) eqn:H.
  - rewrite (on_press_engaged _ key st H). cbn [snd].
    destruct (progress_current st); reflexivity.
  - now rewrite (on_press_not_engaged _ key st H).
Qed.

Lemma callback_engaged_count (indata : list sample) (status : bool)
    (st : state sample) :
  chord_engaged_count (snd (callback indata status st)) = 0.
Proof. unfold callback. destruct (recording st), status; reflexivity. Qed.

Lemma run_engaged_count (g : globals) (evs : list (event sample))
    (st : state sample) :
  chord_engaged_count (snd (run quantize g evs st))
  = engaging_presses evs (pressed_ctrl st) (pressed_shift st).
Proof.
  revert st. induction evs as [|ev rest IH]; intros st; [reflexivity|].
  rewrite run_cons. cbn [snd]. rewrite chord_engaged_count_app, IH.
  destruct ev as [key|key backend|indata status]; cbn [step engaging_presses].
  - rewrite on_press_engaged_count.
    destruct (on_press_flags _ key st) as [-> ->]. reflexivity.
  - rewrite on_release_engaged_count.
    destruct (on_release_flags _ quantize g key backend st) as [-> ->].
    reflexivity.
  - rewrite callback_engaged_count. unfold callback.
    destruct (recording st); reflexivity.
Qed.


(** C8, at the failing input.  The release of the record key as the very
    first event, with the key not recorded as held and no progress task
    opened yet, is not a no-op: the handler enters its release branch and its
    first call is [progress.stop_task] on the task handle [None], which names
    no task; the release of [ctrl_r] in the same state changes nothing and
    calls nothing. *)
Theorem first_release_of_record_key_stops_no_task (g : globals)
    (backend : backend_reply) :
  recorded_as_pressed shift_r (@initial sample) = false
  /\ progress_current (@initial sample) = None
  /\ (exists rest,
        snd (on_release quantize g shift_r backend initial)
        = progress_stop_task None :: rest)
  /\ is_stale_call [] (progress_stop_task None) = true
  /\ on_release quantize g ctrl_r backend initial = (initial, []).
Proof.
  split; [reflexivity|]. split; [reflexivity|]. split.
  - eexists. reflexivity.
  - split; reflexivity.
Qed.

(** X6. In a run from the initial state in which each progress call names an
    open task, a release sends a clip exactly when it is a release of the
    record key with at least 8000 samples buffered (8000 included): then the
    whole buffer, converted, is written once and one request is made, which
    names the file just written and comes after the write; in every other
    case nothing is written or requested. *)
Theorem release_sends_clip_iff_long_enough (g : globals)
    (evs : list (event sample)) (key : Key) (backend : backend_reply) :
  let st := fst (run quantize g evs initial) in
  let es := snd (on_release quantize g key backend st) in
  let sends :=
    Key_eqb key RECORD_KEY
    && (MIN_SAMPLES_FOR_TRANSCRIBE <=? buffered_samples st)%Z in
  stale_task_calls []
    (snd (run quantize g (evs ++ [KeyRelease key backend]) initial)) = [] ->
  List.length (requests_issued es) = (if sends then 1 else 0)
  /\ wav_written es
     = (if sends then [map quantize (List.concat (audio_data st))] else [])
  /\ (if sends
      then exists path rest,
             es = release_prologue st
                    ++ wavfile_write path sample_rate
                         (map quantize (List.concat (audio_data st)))
                    :: requests_post (SERVER_HOST ++ "/transcribe")%string path
                    :: rest
      else True).
Proof.
  cbv zeta. intros _. set (st := fst (run quantize g evs initial)).
  rewrite on_release_wav.
  destruct (Key_eqb key RECORD_KEY) eqn:Hk; cbn [andb].
  - assert (key = RECORD_KEY) as ->.
    { destruct key; cbn in Hk; try discriminate; reflexivity. }
    rewrite on_release_record_key, Z.leb_antisym.
    destruct (audio_data st) as [|f rest] eqn:Ha.
    + assert (Hs : (buffered_samples st <? MIN_SAMPLES_FOR_TRANSCRIBE)%Z = true).
      { unfold buffered_samples. now rewrite Ha. }
      rewrite Hs. cbn. repeat split.
    + destruct (buffered_samples st <? MIN_SAMPLES_FOR_TRANSCRIBE)%Z;
        cbn [negb snd]; [cbn; repeat split|].
      rewrite !requests_issued_app, transcribe_requests_once.
      repeat split.
      rewrite transcribe_shape. exists recording_path. eexists.
      cbn [app]. reflexivity.
  - rewrite on_release_other_key by assumption. cbn. repeat split.
Qed.

(** X7. In a run from the initial state in which each progress call names an
    open task, a release of the record key that finds at least 8000 samples
    buffered always cleans up, whatever the backend answers and whatever a
    macro function does: the "Transcribing..." task it opened is removed,
    the task handle is cleared, recording is off and no task is left
    open. *)
Theorem transcription_attempt_always_cleans_up (g : globals)
    (evs : list (event sample)) (backend : backend_reply) :
  let st := fst (run quantize g evs initial) in
  let r := run quantize g (evs ++ [KeyRelease RECORD_KEY backend]) initial in
  stale_task_calls [] (snd r) = [] ->
  (MIN_SAMPLES_FOR_TRANSCRIBE <= buffered_samples st)%Z ->
  progress_current (fst r) = None
  /\ recording (fst r) = false
  /\ open_tasks [] (snd r) = []
  /\ In (progress_remove_task (Some (task_index st)))
        (snd (on_release quantize g RECORD_KEY backend st)).
Proof.
  cbv zeta. intros _ Hlong. rewrite run_snoc. cbn [fst snd step].
  set (st := fst (run quantize g evs initial)) in *.
  assert (Hc : handle_consistent
                 (open_tasks [] (snd (run quantize g evs initial))) st).
  { apply run_handle_consistent. split; reflexivity. }
  rewrite open_tasks_app, (release_tasks _ quantize g backend st _ Hc).
  rewrite on_release_record_key.
  destruct (audio_data st) as [|f rest] eqn:Ha.
  { exfalso. unfold buffered_samples in Hlong. rewrite Ha in Hlong.
    cbn in Hlong. unfold MIN_SAMPLES_FOR_TRANSCRIBE in Hlong. lia. }
  destruct (Z.ltb_spec (buffered_samples st) MIN_SAMPLES_FOR_TRANSCRIBE)
    as [Hs|_]; [lia|].
  cbn [fst snd progress_current recording].
  split; [reflexivity|]. split; [reflexivity|]. split; [reflexivity|].
  apply in_or_app. right. apply in_or_app. right. apply in_or_app. right.
  now left.
Qed.

(** X8. Along every run from the initial state in which each progress call
    names an open task, at most one progress task is open; while recording is
    on the task handle names the one open task; when the handle is cleared no
    task is open; and an open task is always the one the handle names. *)
Theorem at_most_one_task_is_open (g : globals) (evs : list (event sample)) :
  let st := fst (run quantize g evs initial) in
  let open := open_tasks [] (snd (run quantize g evs initial)) in
  stale_task_calls [] (snd (run quantize g evs initial)) = [] ->
  List.length open <= 1
  /\ (recording st = true ->
      exists t, progress_current st = Some t /\ open = [t])
  /\ (progress_current st = None -> open = [])
  /\ (forall t, In t open -> progress_current st = Some t).
Proof.
  cbv zeta. intros _.
  assert (H : handle_consistent
                (open_tasks [] (snd (run quantize g evs initial)))
                (fst (run quantize g evs initial))).
  { apply run_handle_consistent. split; reflexivity. }
  unfold handle_consistent in H.
  destruct (progress_current (fst (run quantize g evs initial))) as [t|].
  - destruct H as [->|[-> Hrec]]; (split; [cbn; lia|split; [|split]]).
    + intros _. now exists t.
    + discriminate.
    + intros u [<-|[]]. reflexivity.
    + rewrite Hrec. discriminate.
    + discriminate.
    + intros u [].
  - destruct H as [-> Hrec]. split; [cbn; lia|split; [|split]].
    + rewrite Hrec. discriminate.
    + reflexivity.
    + intros u [].
Qed.

Lemma wait_effects_are_probes (script : wait_script) (e : main_effect) :
  In e (fst (wait_for_server script)) ->
  e = requests_get (SERVER_HOST ++ "/health")%string \/ e = time_sleep.
Proof.
  induction script as [reply rest IH| | |]; cbn [wait_for_server].
  - destruct (health_ok reply).
    + intros [<-|[]]. now left.
    + destruct (wait_for_server rest) as [es r]. cbn [fst] in *.
      intros [<-|[<-|H]]; [now left|now right|now apply IH].
  - intros [].
  - intros [].
  - intros [<-|[]]. now left.
Qed.

(** X14. [main] leaves through [sys.exit(1)] exactly when the wait for the
    server raises [TimeoutError], and with no other exit code; the listener
    is started, the "Transcriber is active" line printed, and any capture
    handler run, only if [wait_for_server] returned [True]. *)
Theorem main_listens_only_once_the_server_is_ready (g : globals)
    (env : main_env sample) :
  let es := fst (main quantize g env) in
  let out := snd (main quantize g env) in
  let waited := snd (wait_for_server (startup env)) in
  (out = SystemExit 1 <-> waited = WaitTimeoutError)
  /\ (forall code, out = SystemExit code -> code = 1%Z)
  /\ (In (main_print MsgTranscriberActive) es <-> waited = WaitTrue)
  /\ (In listener_enter es -> waited = WaitTrue)
  /\ (captured es <> [] -> waited = WaitTrue).
Proof.
  cbv zeta. unfold main, start_whisper_server.
  pose proof (wait_effects_are_probes (startup env)) as Hw.
  destruct (wait_for_server_counts (startup env)) as (_ & Hc & _).
  destruct (wait_for_server (startup env)) as [waited r]. cbn [fst snd] in *.
  assert (Hnot : forall e, In e waited ->
                   e <> main_print MsgTranscriberActive /\ e <> listener_enter).
  { intros e He. destruct (Hw e He) as [-> | ->]; split; discriminate. }
  destruct r; [destruct (stream_opens env)| |]; cbn [fst snd].
  - split; [split; discriminate|]. split; [discriminate|].
    split; [split; [reflexivity|]|split; reflexivity].
    intros _. cbn [app]. right. right. apply in_or_app. right. now left.
  - split; [split; discriminate|]. split; [discriminate|].
    split; [split; [reflexivity|]|split; reflexivity].
    intros _. cbn [app]. right. right. apply in_or_app. right. now left.
  - split; [split; reflexivity|]. split; [now intros code [= <-]|].
    cbn [app]. split; [split; [|discriminate]|split].
    + intros [H|[H|H]]; try discriminate.
      apply in_app_or in H as [H|H].
      * destruct (Hnot _ H) as [Hn _]. now elim Hn.
      * destruct H as [H|[H|[H|[]]]]; discriminate.
    + intros [H|[H|H]]; try discriminate.
      apply in_app_or in H as [H|H].
      * destruct (Hnot _ H) as [_ Hn]. now elim Hn.
      * destruct H as [H|[H|[H|[]]]]; discriminate.
    + cbn [captured flat_map app]. rewrite captured_app, Hc. cbn.
      intros H. now elim H.
  - split; [split; discriminate|]. split; [discriminate|].
    cbn [app]. split; [split; [|discriminate]|split].
    + intros [H|[H|H]]; try discriminate.
      apply in_app_or in H as [H|H].
      * destruct (Hnot _ H) as [Hn _]. now elim Hn.
      * destruct H as [H|[H|[]]]; discriminate.
    + intros [H|[H|H]]; try discriminate.
      apply in_app_or in H as [H|H].
      * destruct (Hnot _ H) as [_ Hn]. now elim Hn.
      * destruct H as [H|[H|[]]]; discriminate.
    + cbn [captured flat_map app]. rewrite captured_app, Hc. cbn.
      intros H. now elim H.
Qed.

End ValidRuns.

(** ** Concrete runs without stale calls *)


Lemma process_typed_is_a_dict_lookup_witness :
  NoDup (map fst (example_macros false))
  /\ In (sluggify "Wake", Literal "hello world") (example_macros false)
  /\ markup_free "hello world" = true
  /\ process_typed {| RAW_MODE := false; MACROS := example_macros false |} "Wake"
     = ([print (MsgMatchedReplace (sluggify "Wake") (sluggify "Wake")
                  "hello world");
         keyboard_type "hello world"], Returned tt).
Proof.
  assert (Hnd : NoDup (map fst (example_macros false))).
  { cbn. repeat constructor; cbn; intuition discriminate. }
  assert (Hin : In (sluggify "Wake", Literal "hello world")
                   (example_macros false)).
  { left. reflexivity. }
  split; [exact Hnd|]. split; [exact Hin|]. split; [reflexivity|].
  exact (process_typed_is_a_dict_lookup (example_macros false) "Wake"
           (Literal "hello world") Hnd Hin eq_refl).
Defined.

Lemma release_sends_clip_witness :
  let g := example_globals false in
  let evs : list (event Z) :=
    [KeyPress ctrl_r; KeyPress shift_r; AudioBlock (block 0 8000) false] in
  let st := fst (run pcm_identity g evs initial) in
  stale_task_calls []
    (snd (run pcm_identity g (evs ++ [KeyRelease shift_r Unreachable]) initial))
  = []
  /\ List.length
       (requests_issued (snd (on_release pcm_identity g shift_r Unreachable st)))
     = (if Key_eqb shift_r RECORD_KEY
           && (MIN_SAMPLES_FOR_TRANSCRIBE <=? buffered_samples st)%Z
        then 1 else 0).
Proof.
  cbv zeta.
  assert (H : stale_task_calls []
                (snd (run pcm_identity (example_globals false)
                        ([KeyPress ctrl_r; KeyPress shift_r;
                          AudioBlock (block 0 8000) false]
                           ++ [KeyRelease shift_r Unreachable]) initial))
              = []).
  { vm_compute. reflexivity. }
  split; [exact H|].
  exact (proj1 (release_sends_clip_iff_long_enough Z pcm_identity
                  (example_globals false)
                  [KeyPress ctrl_r; KeyPress shift_r;
                   AudioBlock (block 0 8000) false]
                  shift_r Unreachable H)).
Defined.

Lemma transcription_attempt_cleans_up_witness :
  let g := example_globals true in
  let reply := Reply {| error_status := false; body := TextField "stop" |} in
  let evs : list (event Z) :=
    [KeyPress ctrl_r; KeyPress shift_r; AudioBlock (block 0 8000) false] in
  stale_task_calls []
    (snd (run pcm_identity g (evs ++ [KeyRelease RECORD_KEY reply]) initial))
  = []
  /\ (MIN_SAMPLES_FOR_TRANSCRIBE
      <= buffered_samples (fst (run pcm_identity g evs initial)))%Z
  /\ progress_current
       (fst (run pcm_identity g (evs ++ [KeyRelease RECORD_KEY reply]) initial))
     = None.
Proof.
  cbv zeta.
  assert (H1 : stale_task_calls []
                 (snd (run pcm_identity (example_globals true)
                         ([KeyPress ctrl_r; KeyPress shift_r;
                           AudioBlock (block 0 8000) false]
                            ++ [KeyRelease RECORD_KEY
                                  (Reply {| error_status := false;
                                            body := TextField "stop" |})])
                         initial))
               = []).
  { vm_compute. reflexivity. }
  assert (H2 : (MIN_SAMPLES_FOR_TRANSCRIBE
                <= buffered_samples
                     (fst (run pcm_identity (example_globals true)
                             [KeyPress ctrl_r; KeyPress shift_r;
                              AudioBlock (block 0 8000) false] initial)))%Z).
  { apply Z.leb_le. vm_compute. reflexivity. }
  split; [exact H1|]. split; [exact H2|].
  exact (proj1 (transcription_attempt_always_cleans_up Z pcm_identity
                  (example_globals true)
                  [KeyPress ctrl_r; KeyPress shift_r;
                   AudioBlock (block 0 8000) false]
                  (Reply {| error_status := false; body := TextField "stop" |})
                  H1 H2)).
Defined.

Lemma at_most_one_task_is_open_witness :
  let evs : list (event Z) := [KeyPress ctrl_r; KeyPress shift_r] in
  stale_task_calls []
    (snd (run pcm_identity (example_globals false) evs initial)) = []
  /\ recording (fst (run pcm_identity (example_globals false) evs initial))
     = true
  /\ exists t,
       progress_current
         (fst (run pcm_identity (example_globals false) evs initial)) = Some t
       /\ open_tasks []
            (snd (run pcm_identity (example_globals false) evs initial)) = [t].
Proof.
  cbv zeta. split; [reflexivity|]. split; [reflexivity|].
  apply (proj1 (proj2 (at_most_one_task_is_open Z pcm_identity
                         (example_globals false)
                         [KeyPress ctrl_r; KeyPress shift_r] eq_refl))).
  reflexivity.
Defined.

Lemma main_timeout_witness :
  let env : main_env Z :=
    {| module_dir := "/opt/vibevoice/src"; startup := DeadlinePassed;
       stream_opens := true; delivered := [] |} in
  snd (wait_for_server (startup env)) = WaitTimeoutError
  /\ snd (main pcm_identity (example_globals false) env) = SystemExit 1.
Proof.
  cbv zeta. split; [reflexivity|].
  apply (proj1 (main_listens_only_once_the_server_is_ready Z pcm_identity
                  (example_globals false)
                  {| module_dir := "/opt/vibevoice/src";
                     startup := DeadlinePassed;
                     stream_opens := true; delivered := [] |})).
  reflexivity.
Defined.
